(** * Fessonia: command rendering, filter graphs and the progress parser

    A shallow embedding of the JavaScript sources

    - [lib/ffmpeg_option.js]            (module [FFmpegOption])
    - [lib/filter_graph.js]             (module [FilterGraph])
    - [lib/ffmpeg_stream_specifier.js]  (module [FFmpegStreamSpecifier])
    - [lib/ffmpeg_output.js]            (module [FFmpegOutput])
    - [lib/ffmpeg_command.js]           (module [FFmpegCommand])
    - [lib/ffmpeg_progress_emitter.js]  (module [FFmpegProgressEmitter])

    JavaScript objects that are shared and mutated (filter graphs and filter
    chains) live in an explicit store; code that can throw returns a
    [result]; code that does both runs in the monad [M]. *)

From Stdlib Require Import Ascii ZArith SpecFloat.
From stdpp Require Import gmap strings list pretty.

Local Open Scope string_scope.
Local Open Scope list_scope.

(** ** Exceptions

    The sources throw plain [Error] objects; the constructors below name the
    throw sites by the kind of failure their message announces.  [TypeError]
    is the engine's own error for a property access on [null]/[undefined] or
    a call of something that is not a function. *)
Inductive error : Type :=
  | InvalidArgument (msg : string)
  | InvalidEntity
  | InvalidSpecifier (cause : error)
  | RequiredFieldMissing
  | TypeError.

Inductive result (A : Type) : Type :=
  | Ok (a : A)
  | Err (e : error).
Arguments Ok {A} a.
Arguments Err {A} e.

Definition rbind {A B} (r : result A) (k : A -> result B) : result B :=
  match r with
  | Ok a => k a
  | Err e => Err e
  end.

(** ** JavaScript numbers

    A number is an IEEE 754 binary64 value: the Standard Library's
    [spec_float] at precision 53 and maximal exponent 1024, with its
    correctly rounded operations (round to nearest, ties to even). *)
Definition jsnum : Type := spec_float.

Definition JNaN : jsnum := S754_nan.

(** The number an integer rounds to. *)
Definition num_of_Z (z : Z) : jsnum := binary_normalize 53 1024 z 0 false.

Definition num_is_zero (n : jsnum) : bool :=
  match n with
  | S754_zero _ => true
  | _ => false
  end.

(** A number is falsy when it is [+0], [-0] or [NaN]. *)
Definition num_truthy (n : jsnum) : bool :=
  match n with
  | S754_zero _ | S754_nan => false
  | _ => true
  end.

(** [a === b] on two numbers: [NaN] equals nothing, [+0] equals [-0]. *)
Definition num_strict_eq (a b : jsnum) : bool := SFeqb a b.

(** [a / 1000]. *)
Definition num_div_1000 (a : jsnum) : jsnum := SFdiv 53 1024 a (num_of_Z 1000).

(** ** JavaScript strings

    A string is a sequence of code units; the progress protocol is ASCII, and
    the model keeps the code units below 256. *)
Module JsString.

Definition LF : ascii := "010"%char.
Definition CR : ascii := "013"%char.

(** The class [\s] (and the characters [trim] strips), restricted to code
    units below 256: TAB, LF, VT, FF, CR, space and NBSP. *)
Definition is_space (c : ascii) : bool :=
  existsb (Ascii.eqb c)
    ["009"; "010"; "011"; "012"; "013"; " "; "160"]%char.

(** The class [\d]. *)
Definition is_digit (c : ascii) : bool :=
  existsb (Ascii.eqb c) ["0"; "1"; "2"; "3"; "4"; "5"; "6"; "7"; "8"; "9"]%char.

Definition is_empty (s : string) : bool :=
  match s with EmptyString => true | String _ _ => false end.

(** Every character of [s] satisfies [p]. *)
Fixpoint all_chars (p : ascii -> bool) (s : string) : bool :=
  match s with
  | EmptyString => true
  | String c r => p c && all_chars p r
  end.

Definition not_equals_sign (c : ascii) : bool := negb (Ascii.eqb c "=").

(** [/c$/.test(s)] for one character [c]: [s] ends with [c]. *)
Fixpoint ends_with (c : ascii) (s : string) : bool :=
  match s with
  | EmptyString => false
  | String a r => if is_empty r then Ascii.eqb a c else ends_with c r
  end.

Fixpoint ltrim (s : string) : string :=
  match s with
  | EmptyString => EmptyString
  | String c r => if is_space c then ltrim r else s
  end.

Fixpoint rtrim (s : string) : string :=
  match s with
  | EmptyString => EmptyString
  | String c r =>
      let r' := rtrim r in
      if is_space c && is_empty r' then EmptyString else String c r'
  end.

(** [s.trim()]. *)
Definition trim (s : string) : string := rtrim (ltrim s).

(** [s.split(sep)] for a one-character separator: the pieces between the
    separators, of which there is always at least one. *)
Fixpoint split (sep : ascii) (s : string) : list string :=
  match s with
  | EmptyString => [EmptyString]
  | String c r =>
      if Ascii.eqb c sep then EmptyString :: split sep r
      else match split sep r with
           | piece :: pieces => String c piece :: pieces
           | [] => [String c EmptyString]
           end
  end.

(** [l.join(sep)] on strings. *)
Fixpoint join (sep : string) (l : list string) : string :=
  match l with
  | [] => EmptyString
  | [s] => s
  | s :: rest => s +:+ sep +:+ join sep rest
  end.

End JsString.

(** ** A state and exception monad

    [M S A] is a computation on a mutable state [S] that returns an [A] or
    throws; what it did to the state before it threw stays done. *)
Definition M (S A : Type) : Type := S -> S * result A.

Definition ret {S A} (a : A) : M S A := fun s => (s, Ok a).
Definition throw {S A} (e : error) : M S A := fun s => (s, Err e).
Definition bind {S A B} (m : M S A) (k : A -> M S B) : M S B :=
  fun s => match m s with
           | (s', Ok a) => k a s'
           | (s', Err e) => (s', Err e)
           end.
Definition lift {S A} (r : result A) : M S A := fun s => (s, r).

Declare Scope js_scope.
Delimit Scope js_scope with js.
Notation "'let!' x ':=' m 'in' k" := (bind m (fun x => k))
  (at level 10, x pattern, m at level 100, k at level 200) : js_scope.
Notation "m ';;;' k" := (bind m (fun _ => k))
  (at level 100, k at level 200, right associativity) : js_scope.
Notation "'try!' x ':=' r 'in' k" := (rbind r (fun x => k))
  (at level 10, x pattern, r at level 100, k at level 200) : js_scope.
Local Open Scope js_scope.

(** [mapM] for the loops that call a throwing function on every element. *)
Fixpoint mapM {S A B} (f : A -> M S B) (l : list A) : M S (list B) :=
  match l with
  | [] => ret []
  | a :: rest => let! b := f a in let! bs := mapM f rest in ret (b :: bs)
  end.

Fixpoint rmapM {A B} (f : A -> result B) (l : list A) : result (list B) :=
  match l with
  | [] => Ok []
  | a :: rest => try! b := f a in try! bs := rmapM f rest in Ok (b :: bs)
  end.

(** ** Stream specifiers ([lib/ffmpeg_stream_specifier.js]) *)
Module FFmpegStreamSpecifier.

(** What [entity.type] reads. *)
Inductive tag : Type :=
  | TagUndefined
  | TagString (s : string)
  | TagOther.

(** The owner of a specifier, as far as this class looks at it: its
    [type], the text of its [inputLabel] in a template literal, and its
    method [getOutputPad] (a [TypeError] where the owner has none). *)
Record Entity : Type := {
  type : tag;
  inputLabel : string;
  getOutputPad : string -> result string
}.

(** The [specifier] argument when it is given: a string or a stream index,
    an integer that a double holds exactly and prints in digits (up to
    [2 ^ 53]). *)
Inductive rawSpecifier : Type :=
  | SpecString (s : string)
  | SpecIndex (n : N).

(** [specifier.toString()]. *)
Definition rawSpecifier_toString (r : rawSpecifier) : string :=
  match r with
  | SpecString s => s
  | SpecIndex n => pretty n
  end.

Record t : Type := {
  entity : Entity;
  specifier : string;
  entityType : tag
}.

Definition tag_is (s : string) (g : tag) : bool :=
  match g with
  | TagString s' => String.eqb s' s
  | _ => false
  end.

(** [toString()]. *)
Definition toString (this : t) : result string :=
  if tag_is "FFmpegInput" (entityType this) then
    Ok (inputLabel (entity this) +:+ ":" +:+ specifier this)
  else if tag_is "FilterChain" (entityType this) then
    try! pad := getOutputPad (entity this) (specifier this) in
    Ok ("[" +:+ pad +:+ "]")
  else Ok (specifier this).

(** [new FFmpegStreamSpecifier(entity, specifier)] with both arguments
    given. *)
Definition constructor (e : Entity) (raw : rawSpecifier) : result t :=
  let this := {| entity := e;
                 specifier := rawSpecifier_toString raw;
                 entityType := type e |} in
  match entityType this with
  | TagUndefined => Err InvalidEntity
  | _ =>
      match toString this with
      | Ok _ => Ok this
      | Err err => Err (InvalidSpecifier err)
      end
  end.

(** The stream indices that are printed in digits. *)
Definition printed_in_digits (raw : rawSpecifier) : bool :=
  match raw with
  | SpecString _ => true
  | SpecIndex n => (n <=? 2 ^ 53)%N
  end.

(** [new FFmpegStreamSpecifier(entity, specifier)] with arguments that can
    be left out or be [null] ([None]): [specifier.toString()] on line 28
    throws a [TypeError] for such a specifier, then [entity.type] on line
    29 throws one for such an owner, before any check of [constructor]. *)
Definition construct (entity : option Entity) (specifier : option rawSpecifier)
  : result t :=
  match specifier with
  | None => Err TypeError
  | Some raw =>
      match entity with
      | None => Err TypeError
      | Some e => constructor e raw
      end
  end.

End FFmpegStreamSpecifier.

(** ** Values *)

(** Modelled from the spec: Filter Node (lib/filter_node.js is not among the
    sources): a filter name with positional or keyed parameters. *)
Record FilterNode : Type := {
  filterName : string;
  params : list string + list (string * string)
}.

(** References to the objects in the store. *)
Definition loc : Type := nat.

(** The [toString] property of an object that is none of the library's:
    missing, a value that is not a function, a function that returns the
    string [s], or a function that throws [e].  (A function that returns
    a value other than a string is not among the cases.) *)
Inductive method : Type :=
  | Absent
  | NotAFunction
  | Returns (s : string)
  | Throws (e : error).

(** The values the library is handed.  Filter chains and filter graphs are
    references: they are mutated in place and shared. *)
#[warnings="-register-all"] Inductive value : Type :=
  | VUndefined
  | VNull
  | VBool (b : bool)
  | VNum (n : jsnum)
  | VStr (s : string)
  | VArray (items : list value)
  | VMap (entries : list (value * value))
  | VObject (toString : method)
  | VNode (n : FilterNode)
  | VChain (c : loc)
  | VGraph (g : loc)
  | VSpecifier (s : FFmpegStreamSpecifier.t).

(** A filter chain object: its nodes and its [filterGraph] property
    ([None] while undefined). *)
Record FilterChainObj : Type := {
  nodes : list FilterNode;
  filterGraph : option loc
}.

(** The store: every filter graph (its [chains] array, which holds
    references) and every filter chain. *)
Record store : Type := {
  graphs : gmap loc (list loc);
  chains : gmap loc FilterChainObj
}.

(** What is not among the sources and not decided by them: the engine's
    number formatting, the string methods of nodes and chains, and the
    command string utilities of [lib/util]. *)
Class Externals : Type := {
  numberToString : jsnum -> string;
  FilterNode_toString : FilterNode -> string;
  FilterChain_toString : FilterChainObj -> string;
  createCommandString : option string -> list string -> string;
  ffmpeg_bin : string
}.

Module JsValue.

(** [!v] is [negb (truthy v)]. *)
Definition truthy (v : value) : bool :=
  match v with
  | VUndefined | VNull => false
  | VBool b => b
  | VNum n => num_truthy n
  | VStr s => negb (JsString.is_empty s)
  | _ => true
  end.

Definition js_not (v : value) : value := VBool (negb (truthy v)).

Definition is_string (v : value) : bool :=
  match v with VStr _ => true | _ => false end.
Definition is_null (v : value) : bool :=
  match v with VNull => true | _ => false end.
Definition is_nullish (v : value) : bool :=
  match v with VNull | VUndefined => true | _ => false end.
Definition instanceof_Map (v : value) : bool :=
  match v with VMap _ => true | _ => false end.
Definition Array_isArray (v : value) : bool :=
  match v with VArray _ => true | _ => false end.
Definition instanceof_FilterGraph (v : value) : bool :=
  match v with VGraph _ => true | _ => false end.
Definition instanceof_FilterChain (v : value) : bool :=
  match v with VChain _ => true | _ => false end.
Definition instanceof_FilterNode (v : value) : bool :=
  match v with VNode _ => true | _ => false end.
Definition instanceof_FFmpegStreamSpecifier (v : value) : bool :=
  match v with VSpecifier _ => true | _ => false end.

(** A filter graph, or what [FilterGraph.wrap] turns into one. *)
Definition is_filter (v : value) : bool :=
  instanceof_FilterGraph v || instanceof_FilterChain v || instanceof_FilterNode v.

(** An array or a [Map]. *)
Definition is_collection (v : value) : bool :=
  instanceof_Map v || Array_isArray v.

(** Reading [v.toString]: a [TypeError] on [null] and [undefined],
    otherwise whether the property is a function. *)
Definition has_toString_function (v : value) : result bool :=
  match v with
  | VUndefined | VNull => Err TypeError
  | VObject Absent | VObject NotAFunction => Ok false
  | _ => Ok true
  end.

End JsValue.

(** ** Filter graphs ([lib/filter_graph.js]) *)
Module FilterGraph.
Import JsValue.

Definition set_filterGraph (g : loc) (c : FilterChainObj) : FilterChainObj :=
  {| nodes := nodes c; filterGraph := Some g |}.

(** [this.chains] of the graph at [g]. *)
Definition chains_of (σ : store) (g : loc) : list loc :=
  default [] (graphs σ !! g).

(** [chain.filterGraph] of the chain at [c]. *)
Definition filterGraph_of (σ : store) (c : loc) : option loc :=
  chains σ !! c ≫= filterGraph.

(** [new FilterGraph()]: a new object with an empty [chains] array. *)
Definition constructor : M store loc := fun σ =>
  let g := fresh (dom (graphs σ)) in
  ({| graphs := <[g := []]> (graphs σ); chains := chains σ |}, Ok g).

(** Modelled from the spec: the Filter Chain constructor
    (lib/filter_chain.js is not among the sources): a new chain object that
    holds the nodes and belongs to no graph yet. *)
Definition FilterChain_constructor (ns : list FilterNode) : M store loc := fun σ =>
  let c := fresh (dom (chains σ)) in
  ({| graphs := graphs σ;
      chains := <[c := {| nodes := ns; filterGraph := None |}]> (chains σ) |}, Ok c).

(** Modelled from the spec: FilterChain.wrap (lib/filter_chain.js is not
    among the sources): a single node is wrapped into a new one-node chain,
    anything else is returned as it is. *)
Definition FilterChain_wrap (x : value) : M store value :=
  match x with
  | VNode n => let! c := FilterChain_constructor [n] in ret (VChain c)
  | _ => ret x
  end.

(** [addFilterChain(chain)] on the graph at [this]. *)
Definition addFilterChain (this : loc) (chain : value) : M store unit :=
  match chain with
  | VChain c => fun σ =>
      ({| graphs := alter (fun l => l ++ [c]) this (graphs σ);
          chains := alter (set_filterGraph this) c (chains σ) |}, Ok tt)
  | _ => throw (InvalidArgument "Invalid parameter chain: must be instance of FilterChain")
  end.

(** [findIndex] with [===] on references; [-1] when there is none. *)
Fixpoint findIndex (c : loc) (l : list loc) (i : Z) : Z :=
  match l with
  | [] => (-1)%Z
  | c' :: rest => if bool_decide (c' = c) then i else findIndex c rest (i + 1)%Z
  end.

(** [chainPosition(chain)]. *)
Definition chainPosition (σ : store) (this : loc) (chain : value) : Z :=
  match chain with
  | VChain c => findIndex c (chains_of σ this) 0
  | _ => (-1)%Z
  end.

(** [toString()]. *)
Definition toString `{Externals} (σ : store) (this : loc) : string :=
  JsString.join ";"
    (map (fun c => default "" (FilterChain_toString <$> chains σ !! c))
         (chains_of σ this)).

(** A sequence of [addFilterChain] calls, each on the graph it names.  A
    call that throws leaves the store as it was. *)
Fixpoint run (calls : list (loc * value)) (σ : store) : store :=
  match calls with
  | [] => σ
  | (g, chain) :: rest => run rest (fst (addFilterChain g chain σ))
  end.

(** The chains the calls hand to the graph [g], in call order. *)
Definition added (calls : list (loc * value)) (g : loc) : list loc :=
  omap (fun '(g', chain) =>
          match chain with
          | VChain c => if bool_decide (g' = g) then Some c else None
          | _ => None
          end) calls.

(** The graph of the last call that hands over the chain [c]. *)
Fixpoint last_owner (calls : list (loc * value)) (c : loc) : option loc :=
  match calls with
  | [] => None
  | (g, chain) :: rest =>
      match last_owner rest c with
      | Some g' => Some g'
      | None =>
          match chain with
          | VChain c' => if bool_decide (c' = c) then Some g else None
          | _ => None
          end
      end
  end.

(** The calls are made on graphs, and hand over chains, that exist. *)
Definition calls_exist (σ : store) (calls : list (loc * value)) : Prop :=
  Forall (fun '(g, chain) =>
            g ∈ dom (graphs σ) /\
            match chain with VChain c => c ∈ dom (chains σ) | _ => True end) calls.

(** No chain is in the chain list of two graphs. *)
Definition at_most_one_graph (σ : store) : Prop :=
  forall g1 g2 c, c ∈ chains_of σ g1 -> c ∈ chains_of σ g2 -> g1 = g2.

(** The back-reference of a chain is the graph whose list holds it. *)
Definition backref_is_holder (σ : store) : Prop :=
  forall g c, c ∈ chains_of σ g -> filterGraph_of σ c = Some g.

(** A chain with a back-reference is in the list of the graph it names. *)
Definition backref_holds (σ : store) : Prop :=
  forall g c, filterGraph_of σ c = Some g -> c ∈ chains_of σ g.

(** Two new graphs [0] and [1] and one new chain [0]. *)
Definition two_graphs_one_chain : store :=
  {| graphs := {[ 0%nat := []; 1%nat := [] ]};
     chains := {[ 0%nat := {| nodes := []; filterGraph := None |} ]} |}.

(** [FilterGraph.wrap(filterChain)]. *)
Definition wrap (filterChain : value) : M store value :=
  if instanceof_FilterGraph filterChain then ret filterChain
  else if instanceof_FilterChain filterChain || instanceof_FilterNode filterChain then
    let! fg := constructor in
    let! chain := FilterChain_wrap filterChain in
    addFilterChain fg chain ;;;
    ret (VGraph fg)
  else ret filterChain.

End FilterGraph.

(** ** String conversion of values *)
Module Stringify.
Import JsValue.

Section WithExternals.
Context `{Externals}.

(** [v.toString()] in the store [σ].  An array joins its elements with
    commas, [null] and [undefined] elements giving the empty string. *)
Fixpoint value_toString (σ : store) (v : value) : result string :=
  match v with
  | VUndefined | VNull => Err TypeError
  | VBool b => Ok (if b then "true" else "false")
  | VNum n => Ok (numberToString n)
  | VStr s => Ok s
  | VArray items =>
      try! pieces :=
        (fix each (l : list value) : result (list string) :=
           match l with
           | [] => Ok []
           | x :: rest =>
               try! s := (if is_nullish x then Ok "" else value_toString σ x) in
               try! ss := each rest in
               Ok (s :: ss)
           end) items in
      Ok (JsString.join "," pieces)
  | VMap _ => Ok "[object Map]"
  | VObject (Returns s) => Ok s
  | VObject (Throws e) => Err e
  | VObject _ => Err TypeError
  | VNode n => Ok (FilterNode_toString n)
  | VChain c => Ok (default "" (FilterChain_toString <$> chains σ !! c))
  | VGraph g => Ok (FilterGraph.toString σ g)
  | VSpecifier s => FFmpegStreamSpecifier.toString s
  end.

End WithExternals.

End Stringify.

(** ** Options ([lib/ffmpeg_option.js]) *)
Module FFmpegOption.
Import JsValue.

Definition FILTER_OPTIONS : list string :=
  ["filter"; "filter:v"; "vf"; "filter:a"; "af"; "filter_complex"; "lavfi"].

(** [FILTER_OPTIONS.includes(name)]. *)
Definition includes (l : list string) (name : string) : bool :=
  existsb (String.eqb name) l.

Record t : Type := {
  name : string;
  optionName : string;
  arg : value
}.

(** [validate(name, arg)]. *)
Definition validate (name : string) (arg : value) : result bool :=
  if negb (is_string arg) && negb (is_null arg) then
    if instanceof_Map arg || Array_isArray arg then
      Err (InvalidArgument "InvalidArgument: arg must be a string value or null, or must be a single-value type and have a toString method")
    else
      try! usable := has_toString_function arg in
      if negb usable then
        Err (InvalidArgument "InvalidArgument: arg must be a string value or null, or must have a toString method")
      else Ok true
  else Ok true.

(** The default parameter [arg = null]. *)
Definition default_null (arg : value) : value :=
  match arg with VUndefined => VNull | _ => arg end.

(** [new FFmpegOption(name, arg)].  [FilterGraph.wrap] is called only for
    a name of [FILTER_OPTIONS], and what it does to the store stays. *)
Definition constructor (name : string) (arg : value) : M store t :=
  let arg := default_null arg in
  lift (validate name arg) ;;;
  let! name :=
    (if includes FILTER_OPTIONS name then
       let! wrapped := FilterGraph.wrap arg in
       ret (if instanceof_FilterGraph wrapped then "filter_complex" else name)
     else ret name) in
  let arg := match arg with VUndefined => VNull | _ => arg end in
  ret {| name := name; optionName := "-" +:+ name; arg := arg |}.

Section WithExternals.
Context `{Externals}.

(** [toCommandArray()]. *)
Definition toCommandArray (σ : store) (this : t) : result (list string) :=
  if is_null (arg this) then Ok [optionName this]
  else
    try! s := Stringify.value_toString σ (arg this) in
    Ok [optionName this; s].

(** [toCommandString()]. *)
Definition toCommandString (σ : store) (this : t) : result string :=
  if is_null (arg this) then Ok (optionName this)
  else
    try! s := Stringify.value_toString σ (arg this) in
    Ok (optionName this +:+ " " +:+ s).

End WithExternals.

End FFmpegOption.

(** ** Outputs ([lib/ffmpeg_output.js]) *)
Module FFmpegOutput.
Import JsValue.

(** [streams] holds whatever [validateStreams] let through. *)
Record t : Type := {
  url : string;
  options : list FFmpegOption.t;
  streams : list value
}.

(** [FFmpegOutput.validateOptions(options)] on the entries of the map (or
    of the object) in their order.  The first statement, which writes
    [JSON.stringify(options)] to the debug log, is left out: it returns for
    a [Map] and for an object of strings, numbers and [null], and throws a
    [TypeError] for an object that holds a cyclic structure, such as a
    filter graph with a chain. *)
Definition validateOptions (options : list (string * value))
  : M store (list FFmpegOption.t) :=
  mapM (fun '(name, arg) => FFmpegOption.constructor name arg) options.

(** [new FFmpegOutput(url, options)]. *)
Definition constructor (url : string) (options : list (string * value)) : M store t :=
  if JsString.is_empty url then throw RequiredFieldMissing
  else
    let! opts := validateOptions options in
    ret {| url := url; options := opts; streams := [] |}.

(** [validateStreams(streamSpecifiers)].  The test of the elements is
    [!i instanceof FFmpegStreamSpecifier]: the negation applies to [i]. *)
Definition validateStreams (streamSpecifiers : value) : result (list value) :=
  match streamSpecifiers with
  | VArray items =>
      if existsb (fun i => instanceof_FFmpegStreamSpecifier (js_not i)) items then
        Err (InvalidArgument "Invalid inputs specified: all streamSpecifiers in Array must be FFmpegStreamSpecifier objects")
      else Ok items
  | _ =>
      Err (InvalidArgument "Invalid argument: streamSpecifiers must be an Array of FFmpegStreamSpecifier objects")
  end.

(** [addStreams(streamSpecifiers)]. *)
Definition addStreams (streamSpecifiers : value) (this : t) : result t :=
  try! validated := validateStreams streamSpecifiers in
  Ok {| url := url this;
        options := options this;
        streams := streams this ++ validated |}.

(** [addStream(streamSpecifier)]. *)
Definition addStream (streamSpecifier : value) (this : t) : result t :=
  addStreams (VArray [streamSpecifier]) this.

(** Entries whose arguments are strings or [null], as in
    [{threads: '8', an: null}]; the option objects the constructor makes of
    them; and the tokens they stand for. *)
Definition plain_entries (entries : list (string * option string)) : list (string * value) :=
  map (fun '(name, arg) => (name, from_option VStr VNull arg)) entries.

Definition plain_options (entries : list (string * option string)) : list FFmpegOption.t :=
  map (fun '(name, arg) =>
         {| FFmpegOption.name := name;
            FFmpegOption.optionName := "-" +:+ name;
            FFmpegOption.arg := from_option VStr VNull arg |}) entries.

Definition plain_tokens (entries : list (string * option string)) : list string :=
  flat_map (fun '(name, arg) =>
              match arg with
              | Some s => ["-" +:+ name; s]
              | None => ["-" +:+ name]
              end) entries.

(** [addOptions(options)]. *)
Definition addOptions (options : list (string * value)) (this : t) : M store t :=
  let! optObjects := validateOptions options in
  ret {| url := url this;
         options := FFmpegOutput.options this ++ optObjects;
         streams := streams this |}.

Section WithExternals.
Context `{Externals}.

(** One turn of each [forEach] loop of [toCommandArray]. *)
Definition option_step (σ : store) (cmd : result (list string)) (o : FFmpegOption.t)
  : result (list string) :=
  try! acc := cmd in
  try! tokens := FFmpegOption.toCommandArray σ o in
  Ok (acc ++ tokens).

Definition stream_step (σ : store) (cmd : result (list string)) (s : value)
  : result (list string) :=
  try! acc := cmd in
  try! rendering := Stringify.value_toString σ s in
  Ok (acc ++ ["-map"; rendering]).

(** The two tokens of one stream. *)
Definition map_tokens (σ : store) (s : value) : result (list string) :=
  try! rendering := Stringify.value_toString σ s in
  Ok ["-map"; rendering].

(** [toCommandArray()]. *)
Definition toCommandArray (σ : store) (this : t) : result (list string) :=
  let cmd := Ok [] in
  let cmd := fold_left (option_step σ) (options this) cmd in
  let cmd := fold_left (stream_step σ) (streams this) cmd in
  try! cmd := cmd in
  Ok (cmd ++ [url this]).

(** [toCommandString()]. *)
Definition toCommandString (σ : store) (this : t) : result string :=
  try! cmd := toCommandArray σ this in
  Ok (createCommandString None cmd).

End WithExternals.

End FFmpegOutput.

(** ** Commands ([lib/ffmpeg_command.js]) *)
Module FFmpegCommand.
Import JsValue.

(** Modelled from the spec: the input wrapper (lib/ffmpeg_input.js is not
    among the sources): the label the command assigns to it and the
    segment its [toCommandArray()] returns. *)
Record FFmpegInput : Type := {
  inputLabel : option nat;
  segment : list string
}.

(** [options] are the entries of the map in insertion order. *)
Record t : Type := {
  options : list (string * value);
  _inputs : list FFmpegInput;
  _outputs : list FFmpegOutput.t;
  _filterGraph : option loc
}.

(** [new FFmpegCommand(options)].  (The progress emitter the constructor
    also creates is the subject of [FFmpegProgressEmitter].) *)
Definition constructor (options : list (string * value)) : t :=
  {| options := options; _inputs := []; _outputs := []; _filterGraph := None |}.

(** [addInput(input)]. *)
Definition addInput (input : FFmpegInput) (this : t) : t :=
  let input := {| inputLabel := Some (length (_inputs this)); segment := segment input |} in
  {| options := options this;
     _inputs := _inputs this ++ [input];
     _outputs := _outputs this;
     _filterGraph := _filterGraph this |}.

(** [addOutput(output)]. *)
Definition addOutput (output : FFmpegOutput.t) (this : t) : t :=
  {| options := options this;
     _inputs := _inputs this;
     _outputs := _outputs this ++ [output];
     _filterGraph := _filterGraph this |}.

(** [inputs()] and [outputs()]. *)
Definition inputs (this : t) : list FFmpegInput := _inputs this.
Definition outputs (this : t) : list FFmpegOutput.t := _outputs this.

Definition set_filterGraph (g : loc) (this : t) : t :=
  {| options := options this;
     _inputs := _inputs this;
     _outputs := _outputs this;
     _filterGraph := Some g |}.

(** The command object and the store together are the mutable state of
    [addFilterChain]. *)
Definition on_store {A} (m : M store A) : M (t * store) A := fun '(this, σ) =>
  let '(σ', r) := m σ in ((this, σ'), r).

(** The first statement of [addFilterChain]: the graph is created when
    [this._filterGraph] is undefined. *)
Definition ensure_filterGraph : M (t * store) loc := fun '(this, σ) =>
  match _filterGraph this with
  | Some g => ((this, σ), Ok g)
  | None =>
      match FilterGraph.constructor σ with
      | (σ', Ok g) => ((set_filterGraph g this, σ'), Ok g)
      | (σ', Err e) => ((this, σ'), Err e)
      end
  end.

(** [addFilterChain(filterChain)]. *)
Definition addFilterChain (filterChain : value) : M (t * store) unit :=
  let! g := ensure_filterGraph in
  on_store (FilterGraph.addFilterChain g filterChain).

(** A call of one of the three methods that build a command. *)
Inductive call : Type :=
  | AddInput (input : FFmpegInput)
  | AddOutput (output : FFmpegOutput.t)
  | AddFilterChain (filterChain : value).

Definition do_call (c : call) : M (t * store) unit :=
  match c with
  | AddInput input => fun '(this, σ) => ((addInput input this, σ), Ok tt)
  | AddOutput output => fun '(this, σ) => ((addOutput output this, σ), Ok tt)
  | AddFilterChain filterChain => addFilterChain filterChain
  end.

(** The calls one after the other, up to the first that throws. *)
Fixpoint run_calls (calls : list call) : M (t * store) unit :=
  match calls with
  | [] => ret tt
  | c :: rest => do_call c ;;; run_calls rest
  end.

(** What a list of calls registers: the segments of its inputs, its
    outputs, and the filter chains it hands over, each in call order. *)
Definition registered_inputs (calls : list call) : list (list string) :=
  omap (fun c => match c with AddInput input => Some (segment input) | _ => None end) calls.

Definition registered_outputs (calls : list call) : list FFmpegOutput.t :=
  omap (fun c => match c with AddOutput output => Some output | _ => None end) calls.

Definition added_chains (calls : list call) : list loc :=
  omap (fun c => match c with AddFilterChain (VChain c) => Some c | _ => None end) calls.

(** The list has no call of [addFilterChain]. *)
Definition no_filter_call (calls : list call) : bool :=
  forallb (fun c => match c with AddFilterChain _ => false | _ => true end) calls.

Section WithExternals.
Context `{Externals}.

(** One turn of the loop over the global options. *)
Definition global_step (σ : store) (args : result (list string)) (entry : string * value)
  : result (list string) :=
  let '(opt, value) := entry in
  try! args := args in
  let args := args ++ ["-" +:+ opt] in
  if negb (is_nullish value) then
    try! s := Stringify.value_toString σ value in
    Ok (args ++ [s])
  else Ok args.

Definition output_step (σ : store) (args : result (list string)) (output : FFmpegOutput.t)
  : result (list string) :=
  try! args := args in
  try! tokens := FFmpegOutput.toCommandArray σ output in
  Ok (args ++ tokens).

(** [toCommand().args]. *)
Definition toCommand_args (σ : store) (this : t) : result (list string) :=
  let args := Ok [] in
  let args := fold_left (global_step σ) (options this) args in
  try! args := args in
  let args := fold_left (fun args input => args ++ segment input) (_inputs this) args in
  let args :=
    match _filterGraph this with
    | Some g => args ++ ["-filter_complex"; FilterGraph.toString σ g]
    | None => args
    end in
  fold_left (output_step σ) (_outputs this) (Ok args).

(** The tokens of one global option. *)
Definition global_tokens (σ : store) (entry : string * value) : result (list string) :=
  let '(opt, value) := entry in
  if is_nullish value then Ok ["-" +:+ opt]
  else try! s := Stringify.value_toString σ value in Ok ["-" +:+ opt; s].

(** The tokens of the filter graph. *)
Definition filter_tokens (σ : store) (this : t) : list string :=
  match _filterGraph this with
  | Some g => ["-filter_complex"; FilterGraph.toString σ g]
  | None => []
  end.

(** [toCommand()]: the pair of [command] and [args]. *)
Definition toCommand (σ : store) (this : t) : result (string * list string) :=
  try! args := toCommand_args σ this in
  Ok (ffmpeg_bin, args).

(** [toString()]. *)
Definition toString (σ : store) (this : t) : result string :=
  try! cmd := toCommand σ this in
  Ok (createCommandString (Some (fst cmd)) (snd cmd)).

End WithExternals.

End FFmpegCommand.

(** ** An instance of [Externals] for the worked examples *)
Module Sample.

(** Modelled from the spec: [FilterNode.toString()] of §4.2
    (lib/filter_node.js is not among the sources): [name=v1:v2] for
    positional and [name=k1=v1:k2=v2] for keyed parameters. *)
Definition node_string (n : FilterNode) : string :=
  match params n with
  | inl [] | inr [] => filterName n
  | inl positional => filterName n +:+ "=" +:+ JsString.join ":" positional
  | inr keyed =>
      filterName n +:+ "=" +:+
      JsString.join ":" (map (fun '(k, v) => k +:+ "=" +:+ v) keyed)
  end.

(** Modelled from the spec: [FilterChain.toString()] of §4.2
    (lib/filter_chain.js is not among the sources): the node strings joined
    by commas. *)
Definition chain_string (c : FilterChainObj) : string :=
  JsString.join "," (map node_string (nodes c)).

(** The engine's rendering of a number, for integers (the examples use no
    other number). *)
Definition number_string (n : jsnum) : string :=
  match n with
  | S754_zero _ => "0"
  | S754_nan => "NaN"
  | S754_infinity negative => if negative then "-Infinity" else "Infinity"
  | S754_finite negative m e =>
      (if negative then "-" else "") +:+
      match e with
      | Z0 => pretty (Zpos m)
      | Zpos _ => pretty (Zpos m * 2 ^ e)%Z
      | Zneg _ => pretty (Zpos m / 2 ^ (- e))%Z
      end
  end.

(** Modelled from the spec: the command string of §4.5
    (lib/util/command_string_creator.js is not among the sources), with the
    expected strings of [test/ffmpeg_command.test.js]: the command name, then
    every token, a flag (a leading dash and no white space) as it is and any
    other token in double quotes, separated by spaces. *)
Definition is_flag (token : string) : bool :=
  match token with
  | String "-" _ => JsString.all_chars (fun c => negb (JsString.is_space c)) token
  | _ => false
  end.

Definition quote (token : string) : string :=
  if is_flag token then token
  else String "034" (token +:+ String "034" EmptyString).

Definition command_string (command : option string) (args : list string) : string :=
  JsString.join " " (option_list command ++ map quote args).

Definition externals : Externals :=
  {| numberToString := number_string;
     FilterNode_toString := node_string;
     FilterChain_toString := chain_string;
     createCommandString := command_string;
     ffmpeg_bin := "ffmpeg" |}.

(** A store without objects. *)
Definition empty_store : store := {| graphs := ∅; chains := ∅ |}.

(** The object literal [{a: 1}], a key-value map written as a plain
    object: it is no array and no instance of [Map], and its [toString] is
    the one every object inherits. *)
Definition plain_object : value := VObject (Returns "[object Object]").

(** A store with one filter chain, at reference [0]. *)
Definition scale_store : store :=
  fst (FilterGraph.FilterChain_constructor
         [ {| filterName := "scale"; params := inl ["640"; "-1"] |} ] empty_store).

(** An output object, seen as the owner of a specifier. *)
Definition output_owner : FFmpegStreamSpecifier.Entity :=
  {| FFmpegStreamSpecifier.type := FFmpegStreamSpecifier.TagString "FFmpegOutput";
     FFmpegStreamSpecifier.inputLabel := "undefined";
     FFmpegStreamSpecifier.getOutputPad := fun _ => Err TypeError |}.

(** The specifier of stream [0] of the input labelled [label]. *)
Definition input_stream (label : string) : FFmpegStreamSpecifier.t :=
  {| FFmpegStreamSpecifier.entity :=
       {| FFmpegStreamSpecifier.type := FFmpegStreamSpecifier.TagString "FFmpegInput";
          FFmpegStreamSpecifier.inputLabel := label;
          FFmpegStreamSpecifier.getOutputPad := fun _ => Err TypeError |};
     FFmpegStreamSpecifier.specifier := "0";
     FFmpegStreamSpecifier.entityType := FFmpegStreamSpecifier.TagString "FFmpegInput" |}.

(** The output of the test with stream mappings, before its streams are
    added. *)
Definition gen_mov : FFmpegOutput.t :=
  {| FFmpegOutput.url := "gen.mov";
     FFmpegOutput.options :=
       [ {| FFmpegOption.name := "c:v"; FFmpegOption.optionName := "-c:v";
            FFmpegOption.arg := VStr "prores" |} ];
     FFmpegOutput.streams := [] |}.

(** The input of the command test, by its segment. *)
Definition some_file_mov : FFmpegCommand.FFmpegInput :=
  {| FFmpegCommand.inputLabel := None;
     FFmpegCommand.segment :=
       ["-threads"; "8"; "-itsoffset"; "0"; "-ss"; "6234.0182917"; "-i"; "/some/file.mov"] |}.

(** The output of the command test, without options. *)
Definition dev_null : FFmpegOutput.t :=
  {| FFmpegOutput.url := "/dev/null";
     FFmpegOutput.options := [];
     FFmpegOutput.streams := [] |}.

End Sample.

(** ** The progress parser ([lib/ffmpeg_progress_emitter.js]) *)
Module FFmpegProgressEmitter.
Import JsString.

(** What a record field holds: [parseFloat]'s number, or the trimmed text. *)
Inductive field : Type :=
  | FNum (n : jsnum)
  | FStr (s : string).

Record logEntry : Type := { text : string; time : field }.

(** [progressData] is the committed record, [partialProgressData] the
    pending one. *)
Record state : Type := {
  logBuffer : list logEntry;
  progressData : gmap string field;
  partialProgressData : gmap string field
}.

(** The payload of an ['update'] event. *)
Definition event : Type := gmap string field.

(** The constructor. *)
Definition initial : state :=
  {| logBuffer := []; progressData := ∅; partialProgressData := ∅ |}.

(** [logData()]. *)
Definition logData (st : state) : list string := map text (logBuffer st).

(** [last(n)]: [Math.max(length - n, 0)] is where the slice starts. *)
Definition last (n : Z) (st : state) : list string :=
  if bool_decide (length (logBuffer st) = 0%nat) then logData st
  else
    let start := Z.max (Z.of_nat (length (logBuffer st)) - n) 0 in
    drop (Z.to_nat start) (logData st).

Definition field_truthy (f : field) : bool :=
  match f with
  | FNum n => num_truthy n
  | FStr s => negb (is_empty s)
  end.

Definition field_strict_eq (a b : field) : bool :=
  match a, b with
  | FNum m, FNum n => num_strict_eq m n
  | FStr s, FStr t => String.eqb s t
  | _, _ => false
  end.

(** [/^[^\s=]+=[^=]+\n$/.test(s)]: a key of one or more characters that
    are neither white space nor [=], then [=], then one or more characters
    other than [=], the last character of the string being a line feed that
    follows at least one of them. *)
Fixpoint value_part (s : string) (seen : bool) : bool :=
  match s with
  | EmptyString => false
  | String c r =>
      if Ascii.eqb c "=" then false
      else if is_empty r then seen && Ascii.eqb c LF
      else value_part r true
  end.

Fixpoint key_part (s : string) (seen : bool) : bool :=
  match s with
  | EmptyString => false
  | String c r =>
      if Ascii.eqb c "=" then seen && value_part r false
      else if is_space c then false
      else key_part r true
  end.

Definition is_field_line (s : string) : bool := key_part s false.

(** [numRegExp = /^\-?\d+(?:\.\d+)?$/]. *)
Fixpoint frac_digits (s : string) (seen : bool) : bool :=
  match s with
  | EmptyString => seen
  | String c r => is_digit c && frac_digits r true
  end.

Fixpoint int_digits (s : string) (seen : bool) : bool :=
  match s with
  | EmptyString => seen
  | String c r =>
      if is_digit c then int_digits r true
      else Ascii.eqb c "." && seen && frac_digits r false
  end.

Definition numRegExp_test (s : string) : bool :=
  match s with
  | String "-" r => int_digits r false
  | _ => int_digits s false
  end.

(** [parseFloat] on the strings [numRegExp] accepts: the double nearest to
    the decimal numeral, which is the numeral's digits over a power of ten
    in one correctly rounded division; a numeral of zeros keeps its sign.
    (The code calls [parseFloat] on no other string.) *)
Fixpoint digits_value (s : string) (acc : N) : N :=
  match s with
  | EmptyString => acc
  | String c r => digits_value r (10 * acc + (N_of_ascii c - 48))%N
  end.

Definition decimal_value (negative : bool) (s : string) : jsnum :=
  let pieces := split "." s in
  let int_part := default EmptyString (pieces !! 0%nat) in
  let frac_part := default EmptyString (pieces !! 1%nat) in
  match digits_value (int_part +:+ frac_part) 0 with
  | N0 => S754_zero negative
  | Npos m =>
      SFdiv 53 1024 (S754_finite negative m 0)
        (S754_finite false (Z.to_pos (10 ^ Z.of_nat (String.length frac_part))) 0)
  end.

Definition parseFloat (s : string) : jsnum :=
  match s with
  | String "-" r => decimal_value true r
  | _ => decimal_value false s
  end.

(** What [_parseProgress] stores for the trimmed text of a value. *)
Definition parse_value (text : string) : field :=
  if numRegExp_test text then FNum (parseFloat text) else FStr text.

(** The keys [/^[^\s=]+=/] accepts: without white space and [=]. *)
Definition is_key (k : string) : bool :=
  all_chars (fun c => negb (is_space c) && not_equals_sign c) k.

(** The chunk [key=value] with its line feed. *)
Definition field_line (key value : string) : string :=
  key +:+ String "=" (value +:+ String LF EmptyString).

(** [obj[key] = v] on a plain object whose values are numbers and strings:
    the one key that does not become an own property is [__proto__]
    (its inherited setter ignores a primitive). *)
Definition set_prop (key : string) (v : field) (obj : gmap string field)
  : gmap string field :=
  if String.eqb key "__proto__" then obj else <[key := v]> obj.

Section WithToNumber.
(** The engine's conversion of a string to a number, used when the
    fix-up divides a field that was kept as text. *)
Variable stringToNumber : string -> jsnum.

Definition to_number (f : field) : jsnum :=
  match f with
  | FNum n => n
  | FStr s => stringToNumber s
  end.

(** The first statement of [_emitUpdateEvent]: the [out_time_ms] fix-up
    on the pending record. *)
Definition fix_out_time_ms (pending : gmap string field) : gmap string field :=
  match pending !! "out_time_ms", pending !! "out_time_us" with
  | Some ms, Some us =>
      if field_truthy ms && field_truthy us && field_strict_eq ms us
      then <["out_time_ms" := FNum (num_div_1000 (to_number us))]> pending
      else pending
  | _, _ => pending
  end.

(** [_emitUpdateEvent()]: the state after it and the events emitted. *)
Definition _emitUpdateEvent (st : state) : state * list event :=
  let pending := fix_out_time_ms (partialProgressData st) in
  let st' := {| logBuffer := logBuffer st;
                progressData := pending;
                partialProgressData := ∅ |} in
  (st', [progressData st']).

(** [_parseProgress(p)]. *)
Definition _parseProgress (p : string) (st : state) : result (state * list event) :=
  let pieces := split "=" p in
  let progressKey := pieces !! 0%nat in
  let progressValue := pieces !! 1%nat in
  if bool_decide (progressKey = Some "progress") then Ok (_emitUpdateEvent st)
  else
    match progressKey, progressValue with
    | Some key, Some raw =>
        let text := trim raw in
        let v := if numRegExp_test text then FNum (parseFloat text) else FStr text in
        Ok ({| logBuffer := logBuffer st;
               progressData := progressData st;
               partialProgressData := set_prop key v (partialProgressData st) |}, [])
    | _, _ => Err TypeError
    end.

(** [lastMediaTime()]; the call [this.progressData.hasOwnProperty(..)]
    finds a number or a string instead of the inherited method when the
    committed record has a field of that name. *)
Definition lastMediaTime (st : state) : result field :=
  match progressData st !! "hasOwnProperty" with
  | Some _ => Err TypeError
  | None =>
      match progressData st !! "out_time" with
      | Some t => Ok t
      | None => Ok (FStr "0")
      end
  end.

(** [_write(chunk, encoding, callback)] on the decoded chunk. *)
Definition _write (chunkString : string) (st : state) : result (state * list event) :=
  if ends_with CR chunkString then Ok (st, [])
  else if is_field_line chunkString then _parseProgress (trim chunkString) st
  else
    rbind (lastMediaTime st) (fun t =>
      Ok ({| logBuffer := logBuffer st ++ [{| text := chunkString; time := t |}];
             progressData := progressData st;
             partialProgressData := partialProgressData st |}, [])).

(** Feeding chunks one after the other; the events are collected in
    order. *)
Fixpoint feed (chunks : list string) (st : state) : result (state * list event) :=
  match chunks with
  | [] => Ok (st, [])
  | c :: rest =>
      rbind (_write c st) (fun '(st1, ev1) =>
        rbind (feed rest st1) (fun '(st2, ev2) => Ok (st2, ev1 ++ ev2)))
  end.

End WithToNumber.

Section WithNumberToString.
(** The engine's rendering of a number in a template literal. *)
Variable numberToString : jsnum -> string.

Definition field_text (f : field) : string :=
  match f with
  | FNum n => numberToString n
  | FStr s => s
  end.

(** [formattedLog()]. *)
Definition formattedLog (st : state) : string :=
  JsString.join ""
    (map (fun log => "(" +:+ field_text (time log) +:+ ") " +:+ text log) (logBuffer st)).

End WithNumberToString.

(** The three lines of the fix-up scenario, fed to a new parser. *)
Definition fixup_scenario : list string :=
  ["out_time_ms=5000" +:+ String LF EmptyString;
   "out_time_us=5000" +:+ String LF EmptyString;
   "progress=continue" +:+ String LF EmptyString].

(** Two microsecond counts that differ as numerals and are one double. *)
Definition rounding_scenario : list string :=
  ["out_time_ms=9007199254740993" +:+ String LF EmptyString;
   "out_time_us=9007199254740992" +:+ String LF EmptyString;
   "progress=continue" +:+ String LF EmptyString].

(** Two counts that differ as doubles. *)
Definition unequal_scenario : list string :=
  ["out_time_ms=5000" +:+ String LF EmptyString;
   "out_time_us=6000" +:+ String LF EmptyString;
   "progress=continue" +:+ String LF EmptyString].

(** A parser that has committed one record and has read both time fields
    of the next. *)
Definition between_records : state :=
  {| logBuffer := [ {| text := "frame dropped"; time := FNum (num_of_Z 0) |} ];
     progressData := {[ "frame" := FNum (num_of_Z 1) ]};
     partialProgressData :=
       {[ "out_time_ms" := FNum (num_of_Z 5000);
          "out_time_us" := FNum (num_of_Z 5000);
          "speed" := FStr "1x" ]} |}.

End FFmpegProgressEmitter.

(** * Properties *)

(** ** The progress parser *)
Module ProgressFacts.
Import JsString FFmpegProgressEmitter.

Lemma ends_with_snoc (c d : ascii) (s : string) :
  ends_with c (s +:+ String d EmptyString) = Ascii.eqb d c.
Proof.
  induction s as [|a r IH]; simpl; [reflexivity|].
  destruct r; simpl in *; exact IH.
Qed.

Lemma value_part_snoc_LF (v : string) (seen : bool) :
  all_chars not_equals_sign v = true ->
  seen = true \/ v <> EmptyString ->
  value_part (v +:+ String LF EmptyString) seen = true.
Proof.
  revert seen. induction v as [|c r IH]; intros seen Hv Hne; simpl in *.
  - destruct Hne as [-> | ?]; [reflexivity | congruence].
  - apply andb_prop in Hv as [Hc Hr]. unfold not_equals_sign in Hc.
    apply negb_true_iff in Hc. rewrite Hc.
    destruct r as [|a r].
    + reflexivity.
    + change (is_empty _) with false. cbv iota.
      apply IH; [assumption | left; reflexivity].
Qed.

(** What [is_field_line] accepts starts with a key without white space,
    followed by the first [=] of the chunk. *)
Lemma key_part_shape (s : string) (seen : bool) :
  key_part s seen = true ->
  exists k rest, s = k +:+ String "=" rest
    /\ all_chars (fun c => negb (is_space c) && not_equals_sign c) k = true.
Proof.
  revert seen. induction s as [|c r IH]; intros seen H; simpl in H; [discriminate|].
  destruct (Ascii.eqb c "=") eqn:Hc.
  - apply Ascii.eqb_eq in Hc as ->. exists EmptyString, r. split; reflexivity.
  - destruct (is_space c) eqn:Hs; [discriminate|].
    destruct (IH _ H) as (k & rest & -> & Hk).
    exists (String c k), rest. split; [reflexivity|].
    simpl. unfold not_equals_sign at 1. rewrite Hs, Hc. exact Hk.
Qed.

Lemma ltrim_key (k rest : string) :
  all_chars (fun c => negb (is_space c) && not_equals_sign c) k = true ->
  ltrim (k +:+ String "=" rest) = k +:+ String "=" rest.
Proof.
  destruct k as [|c k]; simpl; [reflexivity|].
  intros H. apply andb_prop in H as [H _]. apply andb_prop in H as [H _].
  apply negb_true_iff in H. rewrite H. reflexivity.
Qed.

Lemma rtrim_key (k rest : string) :
  all_chars (fun c => negb (is_space c) && not_equals_sign c) k = true ->
  rtrim (k +:+ String "=" rest) = k +:+ String "=" (rtrim rest).
Proof.
  induction k as [|c k IH]; simpl; [reflexivity|].
  intros H. apply andb_prop in H as [H Hk]. apply andb_prop in H as [H _].
  apply negb_true_iff in H. rewrite H, (IH Hk). reflexivity.
Qed.

Lemma split_key (k rest : string) :
  all_chars (fun c => negb (is_space c) && not_equals_sign c) k = true ->
  split "=" (k +:+ String "=" rest) = k :: split "=" rest.
Proof.
  induction k as [|c k IH]; simpl; [reflexivity|].
  intros H. apply andb_prop in H as [H Hk]. apply andb_prop in H as [_ H].
  unfold not_equals_sign in H. apply negb_true_iff in H.
  rewrite H, (IH Hk). reflexivity.
Qed.

Section WithToNumber.
Variable stringToNumber : string -> jsnum.

Lemma write_emits_only_on_progress (chunk : string) (st st' : state) (evs : list event) :
  _write stringToNumber chunk st = Ok (st', evs) ->
  evs <> [] ->
  exists rest, chunk = "progress=" +:+ rest.
Proof.
  unfold _write. intros H Hev.
  destruct (ends_with CR chunk); [congruence|].
  destruct (is_field_line chunk) eqn:Hline.
  - apply key_part_shape in Hline as (k & rest & -> & Hk).
    unfold trim, _parseProgress in H.
    rewrite (ltrim_key _ _ Hk), (rtrim_key _ _ Hk), (split_key _ _ Hk) in H.
    simpl in H. case_bool_decide as Hkey.
    + injection Hkey as ->. exists rest. reflexivity.
    + destruct (split "=" (rtrim rest)) as [|raw ?]; simpl in H; congruence.
  - destruct (lastMediaTime st); simpl in H; congruence.
Qed.

Lemma write_progress_line (st : state) (v : string) :
  v <> EmptyString ->
  all_chars not_equals_sign v = true ->
  _write stringToNumber ("progress=" +:+ v +:+ String LF EmptyString) st
  = Ok (_emitUpdateEvent stringToNumber st).
Proof.
  intros Hne Hv. unfold _write.
  change ("progress=" +:+ v +:+ String LF EmptyString)
    with ("progress" +:+ String "=" (v +:+ String LF EmptyString)).
  assert (Hk : all_chars (fun c => negb (is_space c) && not_equals_sign c) "progress" = true)
    by reflexivity.
  replace (ends_with CR _) with false.
  2:{ symmetry. change ("progress" +:+ String "=" (v +:+ String LF EmptyString))
        with (("progress=" +:+ v) +:+ String LF EmptyString).
      apply ends_with_snoc. }
  replace (is_field_line _) with true.
  2:{ symmetry. cbn. apply value_part_snoc_LF; [assumption | right; assumption]. }
  unfold trim, _parseProgress.
  rewrite (ltrim_key _ _ Hk), (rtrim_key _ _ Hk), (split_key _ _ Hk).
  reflexivity.
Qed.

Lemma strict_eq_truthy (a b : jsnum) :
  SFeqb a b = true -> num_truthy a = num_truthy b.
Proof.
  destruct a as [[]|[]| |[] ma ea], b as [[]|[]| |[] mb eb];
    simpl; intros H; try reflexivity; discriminate H.
Qed.

Lemma zero_div_1000 (b : jsnum) :
  num_is_zero b = true -> num_is_zero (num_div_1000 b) = true.
Proof.
  destruct b as [[]| | |]; simpl; try discriminate; intros _; vm_compute; reflexivity.
Qed.

Lemma strict_eq_zero (a b : jsnum) :
  SFeqb a b = true -> num_is_zero a = true -> num_is_zero b = true.
Proof.
  destruct a as [[]|[]| |[] ma ea], b as [[]|[]| |[] mb eb];
    simpl; intros H Hz; try reflexivity; try discriminate Hz; discriminate H.
Qed.

Lemma truthy_not_zero (a b : jsnum) :
  SFeqb a b = true -> num_is_zero a = false -> num_truthy a = true.
Proof.
  destruct a as [[]|[]| |[] ma ea], b as [[]|[]| |[] mb eb];
    simpl; intros H Hz; try reflexivity; try discriminate Hz; discriminate H.
Qed.

(** The fix-up on two numbers. *)
Lemma fix_out_time_ms_numbers (pending : gmap string field) (a b : jsnum) :
  pending !! "out_time_ms" = Some (FNum a) ->
  pending !! "out_time_us" = Some (FNum b) ->
  (SFeqb a b = true -> num_is_zero a = false ->
   fix_out_time_ms stringToNumber pending
   = <["out_time_ms" := FNum (num_div_1000 b)]> pending)
  /\ (SFeqb a b = true -> num_is_zero a = true ->
      fix_out_time_ms stringToNumber pending = pending
      /\ num_is_zero (num_div_1000 b) = true)
  /\ (SFeqb a b = false -> fix_out_time_ms stringToNumber pending = pending).
Proof.
  intros Hms Hus. unfold fix_out_time_ms. rewrite Hms, Hus.
  unfold field_truthy, field_strict_eq, num_strict_eq, to_number.
  split; [|split].
  - intros Hab Hz. rewrite <- (strict_eq_truthy a b Hab).
    rewrite (truthy_not_zero a b Hab Hz), Hab. reflexivity.
  - intros Hab Hz. split.
    + destruct a; try discriminate Hz. reflexivity.
    + apply zero_div_1000, (strict_eq_zero a b Hab Hz).
  - intros Hab. rewrite Hab, andb_false_r. reflexivity.
Qed.

(** The fix-up on two fields kept as text. *)
Lemma fix_out_time_ms_texts (pending : gmap string field) (s t : string) :
  pending !! "out_time_ms" = Some (FStr s) ->
  pending !! "out_time_us" = Some (FStr t) ->
  (s = t -> s <> EmptyString ->
   fix_out_time_ms stringToNumber pending
   = <["out_time_ms" := FNum (num_div_1000 (stringToNumber t))]> pending)
  /\ (s <> t \/ s = EmptyString -> fix_out_time_ms stringToNumber pending = pending).
Proof.
  intros Hms Hus. unfold fix_out_time_ms. rewrite Hms, Hus.
  unfold field_truthy, field_strict_eq, to_number. split.
  - intros <- Hne. rewrite String.eqb_refl.
    destruct s; [congruence | reflexivity].
  - intros [Hne | ->].
    + apply String.eqb_neq in Hne. rewrite Hne, andb_false_r. reflexivity.
    + reflexivity.
Qed.

(** The fix-up when a field is missing or the two are of different types. *)
Lemma fix_out_time_ms_unchanged (pending : gmap string field) :
  (pending !! "out_time_ms" = None \/ pending !! "out_time_us" = None
   \/ (exists a t, pending !! "out_time_ms" = Some (FNum a)
                   /\ pending !! "out_time_us" = Some (FStr t))
   \/ (exists s b, pending !! "out_time_ms" = Some (FStr s)
                   /\ pending !! "out_time_us" = Some (FNum b))) ->
  fix_out_time_ms stringToNumber pending = pending.
Proof.
  unfold fix_out_time_ms.
  intros [H | [H | [(a & t & Hms & Hus) | (t & b & Hms & Hus)]]].
  - rewrite H. reflexivity.
  - rewrite H. destruct (pending !! "out_time_ms"); reflexivity.
  - rewrite Hms, Hus. simpl. rewrite andb_false_r. reflexivity.
  - rewrite Hms, Hus. simpl. rewrite andb_false_r. reflexivity.
Qed.

Lemma fix_out_time_ms_other (pending : gmap string field) (k : string) :
  k <> "out_time_ms" ->
  fix_out_time_ms stringToNumber pending !! k = pending !! k.
Proof.
  intros Hk. unfold fix_out_time_ms.
  destruct (pending !! "out_time_ms"); [|reflexivity].
  destruct (pending !! "out_time_us"); [|reflexivity].
  destruct (_ && _); [|reflexivity].
  rewrite lookup_insert_ne; [reflexivity | congruence].
Qed.

(** C4. A chunk [progress=<state>] followed by a line feed (any non-empty
    state without an equals sign) makes [_write] complete the record
    once: the committed record becomes the pending record after the
    [out_time_ms] fix-up, not merged with the old committed record, the
    pending record becomes empty, the log buffer stays, and the one event
    emitted carries the new committed record.

    The fix-up replaces [out_time_ms] by [out_time_us / 1000], a double
    division, exactly when both fields are present, truthy and strictly
    equal; in every other case the pending record is committed as it is.
    For two numbers: equal and not zero, it is replaced; equal zeros, it
    is kept, and [out_time_us / 1000] is a zero too; unequal (a [NaN]
    equals nothing), it is kept.  For two texts: the same non-empty text,
    it is replaced by that text converted to a number and divided;
    different texts or the empty text, it is kept.  A text beside a
    number, or a missing field: kept.  Every other key is left alone.

    Whatever chunk [_write] consumes, it emits an event only when the
    chunk starts with [progress=].  The three lines [out_time_ms=5000],
    [out_time_us=5000], [progress=continue] fed to a new parser commit
    [out_time_ms = 5] and emit exactly one event. *)
Theorem progress_line_completes_record (st : state) (v : string) :
  v <> EmptyString ->
  all_chars not_equals_sign v = true ->
  let partial := partialProgressData st in
  let pending := fix_out_time_ms stringToNumber partial in
  _write stringToNumber ("progress=" +:+ v +:+ String LF EmptyString) st
  = Ok ({| logBuffer := logBuffer st;
           progressData := pending;
           partialProgressData := ∅ |}, [pending])
  /\ (forall a b : jsnum,
         partial !! "out_time_ms" = Some (FNum a) ->
         partial !! "out_time_us" = Some (FNum b) ->
         (SFeqb a b = true -> num_is_zero a = false ->
          pending = <["out_time_ms" := FNum (num_div_1000 b)]> partial)
         /\ (SFeqb a b = true -> num_is_zero a = true ->
             pending = partial /\ num_is_zero (num_div_1000 b) = true)
         /\ (SFeqb a b = false -> pending = partial))
  /\ (forall s t : string,
         partial !! "out_time_ms" = Some (FStr s) ->
         partial !! "out_time_us" = Some (FStr t) ->
         (s = t -> s <> EmptyString ->
          pending = <["out_time_ms" := FNum (num_div_1000 (stringToNumber t))]> partial)
         /\ (s <> t \/ s = EmptyString -> pending = partial))
  /\ (partial !! "out_time_ms" = None \/ partial !! "out_time_us" = None
      \/ (exists a t, partial !! "out_time_ms" = Some (FNum a)
                      /\ partial !! "out_time_us" = Some (FStr t))
      \/ (exists s b, partial !! "out_time_ms" = Some (FStr s)
                      /\ partial !! "out_time_us" = Some (FNum b)) ->
      pending = partial)
  /\ (forall k, k <> "out_time_ms" -> pending !! k = partial !! k)
  /\ (forall chunk st0 st1 evs,
         _write stringToNumber chunk st0 = Ok (st1, evs) ->
         evs <> [] ->
         exists rest, chunk = "progress=" +:+ rest)
  /\ (exists st1,
         feed stringToNumber fixup_scenario initial = Ok (st1, [progressData st1])
         /\ progressData st1
            = <["out_time_ms" := FNum (num_of_Z 5)]>
                (<["out_time_us" := FNum (num_of_Z 5000)]> ∅)
         /\ partialProgressData st1 = ∅).
Proof.
  intros Hne Hv partial pending.
  split; [|split; [|split; [|split; [|split; [|split]]]]].
  - rewrite (write_progress_line st v Hne Hv). reflexivity.
  - intros a b. apply fix_out_time_ms_numbers.
  - intros s t. apply fix_out_time_ms_texts.
  - apply fix_out_time_ms_unchanged.
  - intros k. apply fix_out_time_ms_other.
  - intros chunk st0 st1 evs. apply write_emits_only_on_progress.
  - exists {| logBuffer := [];
              progressData :=
                <["out_time_ms" := FNum (num_of_Z 5)]>
                  (<["out_time_us" := FNum (num_of_Z 5000)]> ∅);
              partialProgressData := ∅ |}.
    repeat split; vm_compute; reflexivity.
Qed.

(** The comparison of the fix-up is one of doubles: the numerals
    [9007199254740993] and [9007199254740992] are the same double, so the
    fix-up applies to them and commits that double over a thousand. *)
Example fixup_compares_doubles :
  exists st1,
    feed stringToNumber rounding_scenario initial = Ok (st1, [progressData st1])
    /\ progressData st1 !! "out_time_ms"
       = Some (FNum (num_div_1000 (num_of_Z 9007199254740992)))
    /\ progressData st1 !! "out_time_us" = Some (FNum (num_of_Z 9007199254740992)).
Proof.
  exists {| logBuffer := [];
            progressData :=
              <["out_time_ms" := FNum (num_div_1000 (num_of_Z 9007199254740992))]>
                (<["out_time_us" := FNum (num_of_Z 9007199254740992)]> ∅);
            partialProgressData := ∅ |}.
  repeat split; vm_compute; reflexivity.
Qed.

(** Two counts that differ are committed as they were read. *)
Example fixup_keeps_unequal :
  exists st1,
    feed stringToNumber unequal_scenario initial = Ok (st1, [progressData st1])
    /\ progressData st1 !! "out_time_ms" = Some (FNum (num_of_Z 5000))
    /\ progressData st1 !! "out_time_us" = Some (FNum (num_of_Z 6000)).
Proof.
  exists {| logBuffer := [];
            progressData :=
              <["out_time_ms" := FNum (num_of_Z 5000)]>
                (<["out_time_us" := FNum (num_of_Z 6000)]> ∅);
            partialProgressData := ∅ |}.
  repeat split; vm_compute; reflexivity.
Qed.

(** C8. A chunk that ends in a carriage return is dropped: [_write]
    returns without an event, and the committed record, the pending
    record and the log buffer are what they were. *)
Theorem carriage_return_chunk_dropped (st : state) (body : string) :
  _write stringToNumber (body +:+ String CR EmptyString) st = Ok (st, []).
Proof.
  unfold _write. rewrite ends_with_snoc. reflexivity.
Qed.

End WithToNumber.

Lemma progress_line_completes_record_witness :
  "continue" <> EmptyString
  /\ all_chars not_equals_sign "continue" = true
  /\ _write (fun _ => JNaN) ("progress=continue" +:+ String LF EmptyString)
       between_records
     = Ok ({| logBuffer := [ {| text := "frame dropped"; time := FNum (num_of_Z 0) |} ];
              progressData :=
                {[ "out_time_ms" := FNum (num_of_Z 5);
                   "out_time_us" := FNum (num_of_Z 5000);
                   "speed" := FStr "1x" ]};
              partialProgressData := ∅ |},
           [ {[ "out_time_ms" := FNum (num_of_Z 5);
                "out_time_us" := FNum (num_of_Z 5000);
                "speed" := FStr "1x" ]} ]).
Proof.
  split; [discriminate|]. split; [reflexivity|].
  destruct (progress_line_completes_record (fun _ => JNaN) between_records "continue")
    as [H _]; [discriminate | reflexivity |].
  refine (eq_trans H _). vm_compute. reflexivity.
Defined.

End ProgressFacts.

(** ** Filter graphs *)
Module FilterGraphFacts.
Import JsValue FilterGraph.

Lemma chains_of_addFilterChain (σ : store) (g c g' : loc) :
  g ∈ dom (graphs σ) ->
  chains_of (fst (addFilterChain g (VChain c) σ)) g'
  = if bool_decide (g = g') then chains_of σ g ++ [c] else chains_of σ g'.
Proof.
  intros Hg. unfold chains_of. simpl. case_bool_decide as E.
  - subst g'. apply elem_of_dom in Hg as [l Hl].
    rewrite lookup_alter_eq, Hl. reflexivity.
  - rewrite lookup_alter_ne by assumption. reflexivity.
Qed.

Lemma filterGraph_of_addFilterChain (σ : store) (g c c' : loc) :
  c ∈ dom (chains σ) ->
  filterGraph_of (fst (addFilterChain g (VChain c) σ)) c'
  = if bool_decide (c = c') then Some g else filterGraph_of σ c'.
Proof.
  intros Hc. unfold filterGraph_of. simpl. case_bool_decide as E.
  - subst c'. apply elem_of_dom in Hc as [o Ho].
    rewrite lookup_alter_eq, Ho. reflexivity.
  - rewrite lookup_alter_ne by assumption. reflexivity.
Qed.

Lemma addFilterChain_rejects (σ : store) (g : loc) (x : value) :
  instanceof_FilterChain x = false ->
  exists msg, addFilterChain g x σ = (σ, Err (InvalidArgument msg)).
Proof. destruct x; simpl; intros ?; try discriminate; eexists; reflexivity. Qed.

Lemma calls_exist_step (σ : store) (g : loc) (x : value) (calls : list (loc * value)) :
  calls_exist σ calls -> calls_exist (fst (addFilterChain g x σ)) calls.
Proof.
  unfold calls_exist. intros H.
  destruct x; try exact H. simpl.
  eapply Forall_impl; [exact H|]. intros [g' x'] [Hg Hc].
  rewrite !dom_alter_L. auto.
Qed.

Lemma run_chains_of (calls : list (loc * value)) (σ : store) (g : loc) :
  calls_exist σ calls ->
  chains_of (run calls σ) g = chains_of σ g ++ added calls g.
Proof.
  revert σ. induction calls as [|[g0 x] rest IH]; intros σ Hex; simpl.
  - rewrite app_nil_r. reflexivity.
  - apply Forall_cons in Hex as [[Hg Hc] Hrest].
    rewrite IH by (apply calls_exist_step; exact Hrest).
    destruct x; try reflexivity.
    rewrite chains_of_addFilterChain by assumption.
    unfold added. simpl. case_bool_decide; simpl.
    + subst. rewrite <- app_assoc. reflexivity.
    + reflexivity.
Qed.

Lemma run_filterGraph_of (calls : list (loc * value)) (σ : store) (c : loc) :
  calls_exist σ calls ->
  filterGraph_of (run calls σ) c
  = match last_owner calls c with
    | Some g => Some g
    | None => filterGraph_of σ c
    end.
Proof.
  revert σ. induction calls as [|[g0 x] rest IH]; intros σ Hex; simpl.
  - reflexivity.
  - apply Forall_cons in Hex as [[Hg Hc] Hrest].
    rewrite IH by (apply calls_exist_step; exact Hrest).
    destruct (last_owner rest c); [reflexivity|].
    destruct x; try reflexivity.
    rewrite filterGraph_of_addFilterChain by assumption.
    case_bool_decide; reflexivity.
Qed.

Lemma last_owner_added (calls : list (loc * value)) (c g : loc) :
  last_owner calls c = Some g -> c ∈ added calls g.
Proof.
  induction calls as [|[g0 x] rest IH]; simpl; [discriminate|].
  unfold added in *. simpl.
  destruct (last_owner rest c) as [g'|].
  - intros [= ->]. destruct x; auto.
    case_bool_decide; [right|]; auto.
  - destruct x; try discriminate.
    case_bool_decide; [|discriminate]. intros [= ->]. subst.
    rewrite bool_decide_eq_true_2 by reflexivity. left.
Qed.

(** C9, as the code has it.  [addFilterChain] returns for a filter chain
    and throws [InvalidArgument], leaving the store alone, for any other
    value.  After any sequence of [addFilterChain] calls on existing graphs,
    the chain list of every graph is its earlier list
    followed by the chains it was handed, in call order: no call removes a
    chain from a list.  The back-reference of every chain is the graph of
    the last call that handed it over, or its earlier value when there was
    none.  So a chain whose back-reference is set is in the list of the
    graph it names, if that held before the calls. *)
Theorem addFilterChain_appends_and_sets_backref
    (σ : store) (calls : list (loc * value)) :
  calls_exist σ calls ->
  (forall g c, snd (addFilterChain g (VChain c) σ) = Ok tt)
  /\ (forall g x, instanceof_FilterChain x = false ->
        exists msg, addFilterChain g x σ = (σ, Err (InvalidArgument msg)))
  /\ (forall g, chains_of (run calls σ) g = chains_of σ g ++ added calls g)
  /\ (forall c, filterGraph_of (run calls σ) c
                = match last_owner calls c with
                  | Some g => Some g
                  | None => filterGraph_of σ c
                  end)
  /\ (backref_holds σ -> backref_holds (run calls σ)).
Proof.
  intros Hex. split; [reflexivity|]. split; [intros g x; apply addFilterChain_rejects|].
  split; [|split].
  - intros g. apply run_chains_of, Hex.
  - intros c. apply run_filterGraph_of, Hex.
  - intros Hinv g c. rewrite run_filterGraph_of, run_chains_of by exact Hex.
    destruct (last_owner calls c) as [g'|] eqn:E.
    + intros [= ->]. apply elem_of_app. right. apply last_owner_added, E.
    + intros H. apply elem_of_app. left. apply Hinv, H.
Qed.

Lemma addFilterChain_appends_and_sets_backref_witness :
  calls_exist two_graphs_one_chain [(0%nat, VChain 0%nat); (1%nat, VChain 0%nat)]
  /\ chains_of (run [(0%nat, VChain 0%nat); (1%nat, VChain 0%nat)] two_graphs_one_chain) 0%nat
     = [0%nat]
  /\ filterGraph_of (run [(0%nat, VChain 0%nat); (1%nat, VChain 0%nat)] two_graphs_one_chain) 0%nat
     = Some 1%nat.
Proof.
  assert (Hex : calls_exist two_graphs_one_chain
                  [(0%nat, VChain 0%nat); (1%nat, VChain 0%nat)]).
  { repeat constructor; unfold two_graphs_one_chain; simpl; set_solver. }
  split; [exact Hex|].
  destruct (addFilterChain_appends_and_sets_backref _ _ Hex) as (_ & _ & Hl & Hb & _).
  split; [apply (Hl 0%nat) | apply (Hb 0%nat)].
Defined.

(** The claim C9 fails: one chain added to two graphs is in the list of
    both, and its back-reference names only the second. *)
Lemma chain_held_by_two_graphs :
  let σ := run [(0%nat, VChain 0%nat); (1%nat, VChain 0%nat)] two_graphs_one_chain in
  ~ at_most_one_graph σ /\ ~ backref_is_holder σ.
Proof.
  intros σ.
  assert (H0 : chains_of σ 0%nat = [0%nat]) by (vm_compute; reflexivity).
  assert (H1 : chains_of σ 1%nat = [0%nat]) by (vm_compute; reflexivity).
  assert (Hb : filterGraph_of σ 0%nat = Some 1%nat) by (vm_compute; reflexivity).
  split.
  - intros H. specialize (H 0%nat 1%nat 0%nat). rewrite H0, H1 in H.
    discriminate H; left.
  - intros H. specialize (H 0%nat 0%nat). rewrite H0, Hb in H.
    discriminate H; left.
Qed.

(** C10. [wrap] applied to what [wrap] returned gives the same value back
    and leaves the store as the first call left it, so [wrap(wrap(x))] is
    what [wrap(x)] is.  The first call always returns: a graph as it is, a
    new one-chain graph for a chain or a node, any other value as it is and
    without touching the store. *)
Theorem wrap_idempotent (σ : store) (x : value) :
  exists σ' v,
    wrap x σ = (σ', Ok v)
    /\ wrap v σ' = (σ', Ok v)
    /\ bind (wrap x) wrap σ = wrap x σ
    /\ (instanceof_FilterChain x || instanceof_FilterNode x = true ->
        exists g, v = VGraph g /\ g ∉ dom (graphs σ))
    /\ (instanceof_FilterChain x || instanceof_FilterNode x = false ->
        v = x /\ σ' = σ).
Proof.
  destruct x;
    try (exists σ; eexists; split; [reflexivity|]; split; [reflexivity|];
         split; [reflexivity|];
         split; [discriminate | intros _; split; reflexivity]).
  - eexists _, _. split; [reflexivity|]. split; [reflexivity|].
    split; [reflexivity|]. split.
    + intros _. eexists. split; [reflexivity|]. apply is_fresh.
    + discriminate.
  - eexists _, _. split; [reflexivity|]. split; [reflexivity|].
    split; [reflexivity|]. split.
    + intros _. eexists. split; [reflexivity|]. apply is_fresh.
    + discriminate.
Qed.

End FilterGraphFacts.

(** ** Shared lemmas on the accumulating loops *)
Module LoopFacts.

(** A [forEach] loop that appends what a throwing function gives for each
    element returns the concatenation, or the first exception. *)
Lemma fold_left_rmapM {A} (f : result (list string) -> A -> result (list string))
    (g : A -> result (list string)) (l : list A) (acc : list string) :
  (forall acc x, f (Ok acc) x = try! t := g x in Ok (acc ++ t)) ->
  (forall e x, f (Err e) x = Err e) ->
  fold_left f l (Ok acc) = try! ts := rmapM g l in Ok (acc ++ concat ts).
Proof.
  intros Hok Herr. revert acc. induction l as [|x l IH]; intros acc; simpl.
  - rewrite app_nil_r. reflexivity.
  - rewrite Hok. destruct (g x) as [t|e]; simpl.
    + rewrite IH. destruct (rmapM g l); simpl; [|reflexivity].
      rewrite app_assoc. reflexivity.
    + clear IH. induction l as [|y l IH]; simpl; [reflexivity|].
      rewrite Herr. exact IH.
Qed.

Lemma fold_left_Err {A B} (f : result B -> A -> result B) (l : list A) (e : error) :
  (forall e x, f (Err e) x = Err e) ->
  fold_left f l (Err e) = Err e.
Proof.
  intros Herr. induction l as [|x l IH]; simpl; [reflexivity|].
  rewrite Herr. exact IH.
Qed.

Lemma fold_left_segments {A} (seg : A -> list string) (l : list A) (acc : list string) :
  fold_left (fun args x => args ++ seg x) l acc = acc ++ concat (map seg l).
Proof.
  revert acc. induction l as [|x l IH]; intros acc; simpl.
  - rewrite app_nil_r. reflexivity.
  - rewrite IH, app_assoc. reflexivity.
Qed.

End LoopFacts.

(** ** Stream specifiers *)
Module StreamSpecifierFacts.
Import FFmpegStreamSpecifier.

(** An owner without a [type] is refused. *)
Lemma constructor_undefined_tag (e : Entity) (raw : rawSpecifier) :
  type e = TagUndefined -> constructor e raw = Err InvalidEntity.
Proof. unfold constructor. simpl. intros ->. reflexivity. Qed.

(** C5, as the code has it.  For an owner whose [type] is defined and is
    neither ['FFmpegInput'] nor ['FilterChain'], the constructor does not
    throw: it returns the specifier, which renders as the bare specifier
    string.  (It throws [InvalidEntity] when the type is undefined, see
    [constructor_undefined_tag].) *)
Theorem constructor_unrecognized_tag (e : Entity) (raw : rawSpecifier) :
  type e <> TagUndefined ->
  tag_is "FFmpegInput" (type e) = false ->
  tag_is "FilterChain" (type e) = false ->
  constructor e raw
  = Ok {| entity := e; specifier := rawSpecifier_toString raw; entityType := type e |}
  /\ toString {| entity := e; specifier := rawSpecifier_toString raw; entityType := type e |}
     = Ok (rawSpecifier_toString raw).
Proof.
  intros Hdef Hin Hch. unfold constructor, toString. simpl.
  rewrite Hin, Hch. destruct (type e); [congruence | split; reflexivity ..].
Qed.

Lemma constructor_unrecognized_tag_witness :
  type Sample.output_owner <> TagUndefined
  /\ tag_is "FFmpegInput" (type Sample.output_owner) = false
  /\ tag_is "FilterChain" (type Sample.output_owner) = false
  /\ constructor Sample.output_owner (SpecIndex 0)
     = Ok {| entity := Sample.output_owner; specifier := "0";
             entityType := TagString "FFmpegOutput" |}
  /\ toString {| entity := Sample.output_owner; specifier := "0";
                 entityType := TagString "FFmpegOutput" |} = Ok "0".
Proof.
  split; [discriminate|]. split; [reflexivity|]. split; [reflexivity|].
  apply (constructor_unrecognized_tag Sample.output_owner (SpecIndex 0));
    [discriminate | reflexivity | reflexivity].
Defined.

End StreamSpecifierFacts.

(** ** Options *)
Module OptionFacts.
Import JsValue FFmpegOption.

Lemma validate_collection (name : string) (arg : value) :
  is_collection arg = true ->
  exists msg, validate name arg = Err (InvalidArgument msg).
Proof. destruct arg; try discriminate; intros _; eexists; reflexivity. Qed.

Lemma validate_usable (name : string) (arg : value) :
  is_collection arg = false ->
  is_null arg = true \/ is_string arg = true \/ has_toString_function arg = Ok true ->
  validate name arg = Ok true.
Proof.
  destruct arg as [ | | | | | | |[]| | | | ]; try discriminate; try reflexivity;
    intros _ [H|[H|H]]; discriminate.
Qed.

Lemma wrap_returns (σ : store) (x : value) :
  exists σ' v, FilterGraph.wrap x σ = (σ', Ok v)
               /\ instanceof_FilterGraph v = is_filter x
               /\ (is_filter x = false -> σ' = σ).
Proof.
  destruct x; eexists _, _; (split; [reflexivity|]); split;
    try reflexivity; try discriminate; intros _; reflexivity.
Qed.

(** The constructor after a successful [validate]. *)
Lemma constructor_validated (σ : store) (name : string) (arg : value) :
  validate name (default_null arg) = Ok true ->
  exists σ',
    constructor name arg σ
    = (σ', Ok {| name := if includes FILTER_OPTIONS name && is_filter arg
                         then "filter_complex" else name;
                 optionName := "-" +:+ (if includes FILTER_OPTIONS name && is_filter arg
                                        then "filter_complex" else name);
                 arg := default_null arg |})
    /\ (includes FILTER_OPTIONS name && is_filter arg = false -> σ' = σ).
Proof.
  intros Hv. unfold constructor, bind, lift. rewrite Hv.
  assert (Hd : match default_null arg with VUndefined => VNull | _ => default_null arg end
               = default_null arg) by (destruct arg; reflexivity).
  assert (Hf : is_filter (default_null arg) = is_filter arg) by (destruct arg; reflexivity).
  destruct (includes FILTER_OPTIONS name); simpl.
  - destruct (wrap_returns σ (default_null arg)) as (σ' & v & -> & Hi & Hσ).
    rewrite Hf in Hi, Hσ. unfold ret. rewrite Hi, Hd.
    exists σ'. split; [reflexivity | exact Hσ].
  - unfold ret. rewrite Hd. exists σ. split; reflexivity.
Qed.

(** C3. Under each of the seven names of [FILTER_OPTIONS], an option
    constructed with a filter graph, a filter chain or a filter node is
    stored under the name [filter_complex]; an option constructed with a
    string, or with any accepted argument that is none of the three, keeps
    the name it was given, under every name. *)
Theorem filter_alias_normalized (σ : store) (name : string) (arg : value) :
  (In name FILTER_OPTIONS ->
   is_filter arg = true ->
     exists σ' o, constructor name arg σ = (σ', Ok o)
                  /\ FFmpegOption.name o = "filter_complex"
                  /\ optionName o = "-filter_complex"
                  /\ FFmpegOption.arg o = arg)
  /\ (forall s, constructor name (VStr s) σ
                = (σ, Ok {| name := name; optionName := "-" +:+ name; arg := VStr s |}))
  /\ (is_filter arg = false ->
      forall σ' o, constructor name arg σ = (σ', Ok o) ->
                   FFmpegOption.name o = name /\ σ' = σ).
Proof.
  split; [|split].
  - intros Hin Hf.
    assert (Hinc : includes FILTER_OPTIONS name = true).
    { unfold includes. apply existsb_exists. exists name.
      split; [exact Hin | apply String.eqb_refl]. }
    assert (Hv : validate name (default_null arg) = Ok true)
      by (destruct arg; try discriminate; reflexivity).
    destruct (constructor_validated σ name arg Hv) as (σ' & -> & _).
    rewrite Hinc, Hf. simpl. eexists _, _. split; [reflexivity|].
    repeat split. destruct arg; try discriminate; reflexivity.
  - intros s.
    destruct (constructor_validated σ name (VStr s) eq_refl) as (σ' & -> & Hσ).
    rewrite andb_false_r in *. rewrite Hσ by reflexivity. reflexivity.
  - intros Hf σ' o.
    destruct (validate name (default_null arg)) as [[]|e] eqn:Hv.
    + destruct (constructor_validated σ name arg Hv) as (σ1 & -> & Hσ).
      rewrite Hf, andb_false_r in *. intros [= <- <-]. split; [reflexivity | auto].
    + exfalso. revert Hv. unfold validate.
      destruct (_ && _); [|discriminate].
      destruct (_ || _); [discriminate|].
      destruct (has_toString_function _) as [[]|]; discriminate.
    + unfold constructor, bind, lift. rewrite Hv. discriminate.
Qed.

Lemma filter_alias_normalized_witness :
  In "vf" FILTER_OPTIONS
  /\ exists σ' o, constructor "vf" (VNode {| filterName := "scale"; params := inl ["640"; "-1"] |})
                    Sample.empty_store = (σ', Ok o)
                  /\ FFmpegOption.name o = "filter_complex".
Proof.
  assert (Hin : In "vf" FILTER_OPTIONS) by (simpl; tauto).
  split; [exact Hin|].
  destruct (filter_alias_normalized Sample.empty_store "vf"
              (VNode {| filterName := "scale"; params := inl ["640"; "-1"] |}))
    as (H & _).
  destruct (H Hin eq_refl) as (σ' & o & Hc & Hn & _).
  exists σ', o. split; assumption.
Defined.

(** C7. Whatever the name, the constructor throws [InvalidArgument] for an
    array and for a [Map], and returns an option for [null], for a string
    and for every other value that is not a collection and whose
    [toString] is a function; the argument is stored as it is.  An
    [undefined] argument is the default [null]. *)
Theorem constructor_argument_kinds (σ : store) (name : string) (arg : value) :
  (is_collection arg = true ->
     exists msg, constructor name arg σ = (σ, Err (InvalidArgument msg)))
  /\ (is_collection arg = false ->
      is_null arg = true \/ is_string arg = true \/ has_toString_function arg = Ok true ->
      exists σ' o, constructor name arg σ = (σ', Ok o)
                   /\ FFmpegOption.arg o = arg)
  /\ constructor name VUndefined σ
     = (σ, Ok {| name := name; optionName := "-" +:+ name; arg := VNull |}).
Proof.
  split; [|split].
  3:{ destruct (constructor_validated σ name VUndefined eq_refl) as (σ' & -> & Hσ).
      rewrite andb_false_r in *. rewrite Hσ by reflexivity. reflexivity. }
  - intros Hc. destruct (validate_collection name arg Hc) as [msg Hv].
    exists msg. unfold constructor, bind, lift.
    replace (default_null arg) with arg by (destruct arg; try discriminate; reflexivity).
    rewrite Hv. reflexivity.
  - intros Hc Hu.
    assert (Hd : default_null arg = arg).
    { destruct arg; try reflexivity. destruct Hu as [H|[H|H]]; discriminate. }
    pose proof (validate_usable name arg Hc Hu) as Hv. rewrite <- Hd in Hv.
    destruct (constructor_validated σ name arg Hv) as (σ' & -> & _).
    eexists _, _. split; [reflexivity | exact Hd].
Qed.

Lemma constructor_argument_kinds_witness :
  is_collection (VArray [VStr "a"; VStr "b"]) = true
  /\ (exists msg, constructor "vf" (VArray [VStr "a"; VStr "b"]) Sample.empty_store
                  = (Sample.empty_store, Err (InvalidArgument msg)))
  /\ is_collection (VNum (num_of_Z 8)) = false
  /\ has_toString_function (VNum (num_of_Z 8)) = Ok true
  /\ (exists σ' o, constructor "threads" (VNum (num_of_Z 8)) Sample.empty_store = (σ', Ok o)
                   /\ FFmpegOption.arg o = VNum (num_of_Z 8)).
Proof.
  split; [reflexivity|]. split.
  - apply (constructor_argument_kinds Sample.empty_store "vf" (VArray [VStr "a"; VStr "b"])).
    reflexivity.
  - split; [reflexivity|]. split; [reflexivity|].
    apply (constructor_argument_kinds Sample.empty_store "threads" (VNum (num_of_Z 8)));
      [reflexivity | right; right; reflexivity].
Defined.

(** The claim C7 fails for a key-value map written as a plain object: the
    object [{a: 1}] is no array and no instance of [Map], and the
    [toString] it inherits is a function, so the constructor returns an
    option for it, under a name of [FILTER_OPTIONS] as under any other;
    the option renders the argument as [[object Object]]. *)
Lemma plain_object_map_accepted :
  let o := {| name := "metadata"; optionName := "-metadata"; arg := Sample.plain_object |} in
  constructor "metadata" Sample.plain_object Sample.empty_store
  = (Sample.empty_store, Ok o)
  /\ constructor "vf" Sample.plain_object Sample.empty_store
     = (Sample.empty_store,
        Ok {| name := "vf"; optionName := "-vf"; arg := Sample.plain_object |})
  /\ toCommandArray (H := Sample.externals) Sample.empty_store o
     = Ok ["-metadata"; "[object Object]"].
Proof.
  intros o. split; [reflexivity|]. split; [vm_compute; reflexivity | reflexivity].
Qed.

End OptionFacts.

(** ** Outputs *)
Module OutputFacts.
Import JsValue FFmpegOutput LoopFacts.

Section WithExternals.
Context `{Externals}.

(** [toCommandArray] without its loops. *)
Lemma toCommandArray_tokens (σ : store) (this : t) :
  toCommandArray σ this
  = try! opts := rmapM (FFmpegOption.toCommandArray σ) (options this) in
    try! maps := rmapM (map_tokens σ) (streams this) in
    Ok (concat opts ++ concat maps ++ [url this]).
Proof.
  unfold toCommandArray.
  rewrite (fold_left_rmapM (option_step σ) (FFmpegOption.toCommandArray σ));
    [|reflexivity..].
  destruct (rmapM (FFmpegOption.toCommandArray σ) (options this)) as [opts|e]; simpl.
  - rewrite (fold_left_rmapM (stream_step σ) (map_tokens σ)).
    + destruct (rmapM (map_tokens σ) (streams this)); simpl; [|reflexivity].
      rewrite <- app_assoc. reflexivity.
    + intros acc x. unfold stream_step, map_tokens. simpl.
      destruct (Stringify.value_toString σ x); reflexivity.
    + reflexivity.
  - rewrite fold_left_Err; reflexivity.
Qed.

(** The streams of specifiers render one [-map] pair each, in order. *)
Lemma map_tokens_specifiers (σ : store) (specs : list FFmpegStreamSpecifier.t)
    (rs : list string) :
  rmapM FFmpegStreamSpecifier.toString specs = Ok rs ->
  rmapM (map_tokens σ) (map VSpecifier specs)
  = Ok (map (fun r => ["-map"; r]) rs).
Proof.
  revert rs. induction specs as [|s specs IH]; intros rs; simpl.
  - intros [= <-]. reflexivity.
  - unfold map_tokens at 1. simpl.
    destruct (FFmpegStreamSpecifier.toString s); simpl; [|discriminate].
    destruct (rmapM FFmpegStreamSpecifier.toString specs); simpl; [|discriminate].
    intros [= <-]. rewrite (IH _ eq_refl). reflexivity.
Qed.

(** C2. For an output without streams to which [addStreams] hands the
    specifiers [s0, s1, s1], [toCommandArray] returns the tokens of the
    options in option order, then the three pairs [-map r0], [-map r1],
    [-map r1], where [r0] and [r1] are what [s0] and [s1] render, then
    the url as the last token. *)
Theorem output_tokens_in_order (σ : store) (this : t)
    (s0 s1 : FFmpegStreamSpecifier.t) (toks : list (list string)) (r0 r1 : string) :
  streams this = [] ->
  rmapM (FFmpegOption.toCommandArray σ) (options this) = Ok toks ->
  FFmpegStreamSpecifier.toString s0 = Ok r0 ->
  FFmpegStreamSpecifier.toString s1 = Ok r1 ->
  exists this',
    addStreams (VArray [VSpecifier s0; VSpecifier s1; VSpecifier s1]) this = Ok this'
    /\ streams this' = [VSpecifier s0; VSpecifier s1; VSpecifier s1]
    /\ toCommandArray σ this'
       = Ok (concat toks ++ ["-map"; r0; "-map"; r1; "-map"; r1] ++ [url this]).
Proof.
  intros Hs Ho H0 H1. eexists. split; [reflexivity|]. simpl. rewrite Hs.
  split; [reflexivity|].
  rewrite toCommandArray_tokens. simpl. rewrite Ho. simpl.
  unfold map_tokens. simpl. rewrite H0, H1. reflexivity.
Qed.

(** C6, as the code has it: [addStreams] throws for every value that is
    not an array, and accepts every array, whatever its elements are; the
    elements are appended in their order and none is dropped. *)
Theorem addStreams_accepts_any_array (this : t) (items : list value) :
  addStreams (VArray items) this
  = Ok {| url := url this; options := options this; streams := streams this ++ items |}
  /\ addStreams (VArray [VStr "0:0"; VNull]) this
     = Ok {| url := url this; options := options this;
             streams := streams this ++ [VStr "0:0"; VNull] |}
  /\ (forall v, Array_isArray v = false ->
        exists msg, addStreams v this = Err (InvalidArgument msg)).
Proof.
  assert (Hall : forall l, validateStreams (VArray l) = Ok l).
  { intros l. unfold validateStreams.
    replace (existsb _ l) with false; [reflexivity|].
    symmetry. induction l as [|x l IH]; [reflexivity | exact IH]. }
  split; [|split].
  - unfold addStreams. rewrite Hall. reflexivity.
  - reflexivity.
  - intros v Hv. destruct v; try discriminate; eexists; reflexivity.
Qed.

End WithExternals.

Lemma output_tokens_in_order_witness :
  exists this',
    addStreams (VArray [VSpecifier (Sample.input_stream "0"); VSpecifier (Sample.input_stream "1");
                        VSpecifier (Sample.input_stream "1")]) Sample.gen_mov = Ok this'
    /\ streams this' = [VSpecifier (Sample.input_stream "0"); VSpecifier (Sample.input_stream "1");
                        VSpecifier (Sample.input_stream "1")]
    /\ toCommandArray (H := Sample.externals) Sample.empty_store this'
       = Ok ["-c:v"; "prores"; "-map"; "0:0"; "-map"; "1:0"; "-map"; "1:0"; "gen.mov"].
Proof.
  apply (output_tokens_in_order (H := Sample.externals) Sample.empty_store Sample.gen_mov
           (Sample.input_stream "0") (Sample.input_stream "1") [["-c:v"; "prores"]] "0:0" "1:0");
    reflexivity.
Defined.

End OutputFacts.

(** ** Commands *)
Module CommandFacts.
Import JsValue FFmpegCommand LoopFacts.

Section WithExternals.
Context `{Externals}.

(** [toCommand().args] without its loops. *)
Lemma toCommand_args_tokens (σ : store) (this : t) :
  toCommand_args σ this
  = try! globals := rmapM (global_tokens σ) (options this) in
    try! outs := rmapM (FFmpegOutput.toCommandArray σ) (_outputs this) in
    Ok (concat globals ++ concat (map segment (_inputs this))
        ++ filter_tokens σ this ++ concat outs).
Proof.
  unfold toCommand_args.
  rewrite (fold_left_rmapM (global_step σ) (global_tokens σ)).
  - destruct (rmapM (global_tokens σ) (options this)) as [globals|e]; simpl;
      [|reflexivity].
    rewrite fold_left_segments.
    assert (Hf : forall acc : list string,
               match _filterGraph this with
               | Some g => acc ++ ["-filter_complex"; FilterGraph.toString σ g]
               | None => acc
               end = acc ++ filter_tokens σ this).
    { intros acc. unfold filter_tokens. destruct (_filterGraph this).
      - reflexivity.
      - rewrite app_nil_r. reflexivity. }
    rewrite Hf.
    rewrite (fold_left_rmapM (output_step σ) (FFmpegOutput.toCommandArray σ));
      [|reflexivity..].
    destruct (rmapM _ (_outputs this)); simpl; [|reflexivity].
    rewrite <- !app_assoc. reflexivity.
  - intros acc [opt value]. unfold global_step, global_tokens.
    destruct (is_nullish value); simpl; [reflexivity|].
    destruct (Stringify.value_toString σ value); simpl; [|reflexivity].
    rewrite <- app_assoc. reflexivity.
  - intros e [opt value]. reflexivity.
Qed.

(** [toCommand] on the fields of a command: the tokens of the global
    options, then the segment of each input in registration order, then
    the two tokens [-filter_complex] and the graph's string when the
    graph field is set and nothing when it is not, then the segment of
    each output in registration order; [toString] hands these tokens to
    [createCommandString].  A new command has no filter graph,
    [addInput] and [addOutput] append and leave the graph field alone,
    and [addFilterChain] with a filter chain returns with the graph
    set. *)
Lemma toCommand_tokens_of_fields (σ : store) (this : t) :
  toCommand_args σ this
  = (try! globals := rmapM (global_tokens σ) (options this) in
     try! outs := rmapM (FFmpegOutput.toCommandArray σ) (_outputs this) in
     Ok (concat globals ++ concat (map segment (_inputs this))
         ++ filter_tokens σ this ++ concat outs))
  /\ toString σ this
     = (try! args := toCommand_args σ this in
        Ok (createCommandString (Some ffmpeg_bin) args))
  /\ (filter_tokens σ this = [] <-> _filterGraph this = None)
  /\ (forall g, _filterGraph this = Some g ->
        filter_tokens σ this = ["-filter_complex"; FilterGraph.toString σ g])
  /\ (forall options, _filterGraph (constructor options) = None)
  /\ (forall input,
        map segment (_inputs (addInput input this)) = map segment (_inputs this) ++ [segment input]
        /\ _outputs (addInput input this) = _outputs this
        /\ _filterGraph (addInput input this) = _filterGraph this)
  /\ (forall output,
        _outputs (addOutput output this) = _outputs this ++ [output]
        /\ _inputs (addOutput output this) = _inputs this
        /\ _filterGraph (addOutput output this) = _filterGraph this)
  /\ (forall c, exists this' σ',
        addFilterChain (VChain c) (this, σ) = ((this', σ'), Ok tt)
        /\ is_Some (_filterGraph this')
        /\ _inputs this' = _inputs this /\ _outputs this' = _outputs this).
Proof.
  split; [apply toCommand_args_tokens|].
  split. { unfold toString, toCommand. destruct (toCommand_args σ this); reflexivity. }
  split. { unfold filter_tokens. destruct (_filterGraph this); split; congruence. }
  split. { intros g Hg. unfold filter_tokens. rewrite Hg. reflexivity. }
  split; [reflexivity|].
  split. { intros input. simpl. rewrite map_app. repeat split. }
  split. { intros output. repeat split. }
  intros c. unfold addFilterChain, bind, ensure_filterGraph.
  destruct (_filterGraph this) as [g|] eqn:Hg; simpl.
  - eexists _, _. split; [reflexivity|]. rewrite Hg. repeat split. eauto.
  - eexists _, _. split; [reflexivity|]. simpl. repeat split. eauto.
Qed.

(** What a list of calls that all return leaves in a command: the options
    it had, its inputs and outputs followed by the registered ones, and a
    graph that holds the chains handed over, after those it held. *)
Lemma run_calls_state (calls : list call) (this0 this : t) (σ0 σ : store) :
  run_calls calls (this0, σ0) = ((this, σ), Ok tt) ->
  (forall g, _filterGraph this0 = Some g -> g ∈ dom (graphs σ0)) ->
  options this = options this0
  /\ map segment (_inputs this) = map segment (_inputs this0) ++ registered_inputs calls
  /\ _outputs this = _outputs this0 ++ registered_outputs calls
  /\ (forall x, In (AddFilterChain x) calls -> exists c, x = VChain c)
  /\ match _filterGraph this0 with
     | Some g =>
         _filterGraph this = Some g
         /\ FilterGraph.chains_of σ g = FilterGraph.chains_of σ0 g ++ added_chains calls
     | None =>
         match added_chains calls with
         | [] => _filterGraph this = None
         | _ :: _ =>
             exists g, _filterGraph this = Some g
                       /\ FilterGraph.chains_of σ g = added_chains calls
         end
     end.
Proof.
  revert this0 σ0. induction calls as [|c rest IH]; intros this0 σ0 Hrun Hdom.
  - injection Hrun as <- <-. rewrite !app_nil_r.
    repeat split; [intros x []|].
    destruct (_filterGraph this0); [split|]; rewrite ?app_nil_r; reflexivity.
  - destruct c as [input|output|x].
    + change (run_calls rest (addInput input this0, σ0) = ((this, σ), Ok tt)) in Hrun.
      destruct (IH _ _ Hrun Hdom) as (Ho & Hi & Hout & Hx & Hg).
      split; [exact Ho|]. split.
      { rewrite Hi. simpl. rewrite map_app, <- app_assoc. reflexivity. }
      split; [exact Hout|]. split.
      { intros y [Hy|Hy]; [discriminate | auto]. }
      exact Hg.
    + change (run_calls rest (addOutput output this0, σ0) = ((this, σ), Ok tt)) in Hrun.
      destruct (IH _ _ Hrun Hdom) as (Ho & Hi & Hout & Hx & Hg).
      split; [exact Ho|]. split; [exact Hi|]. split.
      { rewrite Hout. simpl. rewrite <- app_assoc. reflexivity. }
      split.
      { intros y [Hy|Hy]; [discriminate | auto]. }
      exact Hg.
    + simpl in Hrun. unfold bind at 1 in Hrun.
      unfold addFilterChain, bind, ensure_filterGraph, on_store in Hrun.
      unfold FilterGraph.constructor, FilterGraph.addFilterChain, throw in Hrun.
      assert (Hx : exists c, x = VChain c).
      { destruct x; try (eexists; reflexivity); exfalso;
          destruct (_filterGraph this0); simpl in Hrun; discriminate. }
      destruct Hx as [c ->].
      destruct (_filterGraph this0) as [g|] eqn:Hg; simpl in Hrun.
      * assert (Hin : g ∈ dom (graphs σ0)) by (apply Hdom; reflexivity).
        destruct (IH _ _ Hrun) as (Ho & Hi & Hout & Hx & Hgr).
        { simpl. rewrite Hg. intros g' [= <-]. apply elem_of_dom.
          apply elem_of_dom in Hin as [l Hl]. rewrite lookup_alter_eq, Hl. eauto. }
        rewrite Hg in Hgr. destruct Hgr as [Hthis Hch].
        split; [exact Ho|]. split; [exact Hi|]. split; [exact Hout|]. split.
        { intros y [[= <-]|Hy]; [eexists; reflexivity | auto]. }
        split; [exact Hthis|]. rewrite Hch.
        pose proof (FilterGraphFacts.chains_of_addFilterChain σ0 g c g Hin) as Hc.
        simpl in Hc. rewrite bool_decide_eq_true_2 in Hc by reflexivity.
        rewrite Hc, <- app_assoc. reflexivity.
      * set (g := fresh (dom (graphs σ0))) in *.
        destruct (IH _ _ Hrun) as (Ho & Hi & Hout & Hx & Hgr).
        { simpl. intros g' [= <-]. apply elem_of_dom.
          rewrite lookup_alter_eq, lookup_insert_eq. eauto. }
        simpl in Hgr. destruct Hgr as [Hthis Hch].
        split; [exact Ho|]. split; [exact Hi|]. split; [exact Hout|]. split.
        { intros y [[= <-]|Hy]; [eexists; reflexivity | auto]. }
        exists g. split; [exact Hthis|]. rewrite Hch.
        unfold FilterGraph.chains_of. simpl.
        rewrite lookup_alter_eq, lookup_insert_eq. reflexivity.
Qed.

(** C1. For a command built by [new FFmpegCommand(options)] and any list
    of calls of [addInput], [addOutput] and [addFilterChain] that all
    return, [toCommand] gives the tokens of the global options, then the
    segment of each input in registration order, then the filter tokens,
    then the segment of each output in registration order, and throws
    what rendering a global option or an output throws.  The filter
    tokens are [-filter_complex] and the graph's string if and only if a
    filter chain was added, and none otherwise; the graph then holds the
    added chains in call order.  Every [addFilterChain] call that returns
    was handed a filter chain, so a chain was added exactly when there
    was such a call.  [toString] hands the tokens to
    [createCommandString]. *)
Theorem toCommand_token_order
    (opts : list (string * value)) (calls : list call) (σ0 σ : store) (this : t) :
  run_calls calls (constructor opts, σ0) = ((this, σ), Ok tt) ->
  toCommand_args σ this
  = (try! globals := rmapM (global_tokens σ) opts in
     try! outs := rmapM (FFmpegOutput.toCommandArray σ) (registered_outputs calls) in
     Ok (concat globals ++ concat (registered_inputs calls)
         ++ filter_tokens σ this ++ concat outs))
  /\ (added_chains calls = [] -> filter_tokens σ this = [])
  /\ (added_chains calls <> [] ->
      exists g, _filterGraph this = Some g
                /\ FilterGraph.chains_of σ g = added_chains calls
                /\ filter_tokens σ this = ["-filter_complex"; FilterGraph.toString σ g])
  /\ (forall x, In (AddFilterChain x) calls -> exists c, x = VChain c)
  /\ (added_chains calls = [] <-> no_filter_call calls = true)
  /\ toString σ this
     = (try! args := toCommand_args σ this in
        Ok (createCommandString (Some ffmpeg_bin) args)).
Proof.
  intros Hrun.
  destruct (run_calls_state calls (constructor opts) this σ0 σ Hrun)
    as (Ho & Hi & Hout & Hx & Hg); [discriminate|].
  simpl in Ho, Hi, Hout, Hg.
  split; [|split; [|split; [|split; [|split]]]].
  - rewrite toCommand_args_tokens, Ho, Hi, Hout. reflexivity.
  - intros Hnil. rewrite Hnil in Hg. unfold filter_tokens. rewrite Hg. reflexivity.
  - intros Hne. destruct (added_chains calls) as [|c l] eqn:Ha; [congruence|].
    destruct Hg as (g & Hthis & Hch). exists g.
    split; [exact Hthis|]. split; [exact Hch|].
    unfold filter_tokens. rewrite Hthis. reflexivity.
  - exact Hx.
  - clear Hrun Hi Hout Hg. induction calls as [|c rest IH]; [split; reflexivity|].
    destruct c as [input|output|x]; simpl.
    + apply IH. intros y Hy. apply Hx. right. exact Hy.
    + apply IH. intros y Hy. apply Hx. right. exact Hy.
    + destruct (Hx x) as [c ->]; [left; reflexivity|].
      split; discriminate.
  - unfold toString, toCommand. destruct (toCommand_args σ this); reflexivity.
Qed.

End WithExternals.

Lemma toCommand_token_order_witness :
  let calls := [AddInput Sample.some_file_mov; AddFilterChain (VChain 0%nat);
                AddOutput Sample.dev_null] in
  let final := run_calls calls (constructor [("y", VUndefined)], Sample.scale_store) in
  snd final = Ok tt
  /\ toCommand_args (H := Sample.externals) (snd (fst final)) (fst (fst final))
     = Ok ["-y"; "-threads"; "8"; "-itsoffset"; "0"; "-ss"; "6234.0182917";
           "-i"; "/some/file.mov"; "-filter_complex"; "scale=640:-1"; "/dev/null"].
Proof.
  intros calls final.
  assert (Hrun : run_calls calls (constructor [("y", VUndefined)], Sample.scale_store)
                 = ((fst (fst final), snd (fst final)), Ok tt))
    by (vm_compute; reflexivity).
  split; [vm_compute; reflexivity|].
  destruct (toCommand_token_order (H := Sample.externals) _ _ _ _ _ Hrun) as [Ha _].
  refine (eq_trans Ha _). vm_compute. reflexivity.
Defined.

(** The command object of [test/ffmpeg_command.test.js] (with three of the
    output options): the tokens of [toCommand]. *)
Example command_object_of_the_tests :
  match FFmpegOutput.constructor "/dev/null"
          [("c:v", VStr "libx264"); ("an", VUndefined); ("f", VStr "mp4")]
          Sample.empty_store with
  | (σ, Ok dev_null) =>
      toCommand_args (H := Sample.externals) σ
        (addOutput dev_null (addInput Sample.some_file_mov (constructor [("y", VUndefined)])))
      = Ok ["-y"; "-threads"; "8"; "-itsoffset"; "0"; "-ss"; "6234.0182917";
            "-i"; "/some/file.mov"; "-c:v"; "libx264"; "-an"; "-f"; "mp4"; "/dev/null"]
  | _ => False
  end.
Proof. vm_compute. reflexivity. Qed.

(** A chain added to a new command: the command's graph renders as the
    chain does (the [addFilterChain] test). *)
Example filter_chain_of_the_tests :
  let scale := {| filterName := "scale"; params := inl ["640"; "-1"] |} in
  match FilterGraph.FilterChain_constructor [scale] Sample.empty_store with
  | (σ, Ok fc) =>
      match addFilterChain (VChain fc) (constructor [], σ) with
      | ((cmd, σ'), Ok _) =>
          toCommand_args (H := Sample.externals) σ' cmd = Ok ["-filter_complex"; "scale=640:-1"]
      | _ => False
      end
  | _ => False
  end.
Proof. vm_compute. reflexivity. Qed.

(** A call that throws is outside the lists of calls above.  A call of
    [addFilterChain] with a value that is not a filter chain, which the
    declared type of the parameter excludes, throws after it has created
    the graph: no chain was added, and a caller that catches the error
    has a command that renders [-filter_complex] with the empty string. *)
Lemma rejected_chain_leaves_graph :
  let after := addFilterChain (VStr "scale=640:-1") (constructor [], Sample.empty_store) in
  snd after = Err (InvalidArgument "Invalid parameter chain: must be instance of FilterChain")
  /\ (forall g, _filterGraph (fst (fst after)) = Some g ->
                FilterGraph.chains_of (snd (fst after)) g = [])
  /\ toCommand_args (H := Sample.externals) (snd (fst after)) (fst (fst after))
     = Ok ["-filter_complex"; ""].
Proof.
  intros after. split; [reflexivity|]. split.
  - intros g. vm_compute. intros [= <-]. reflexivity.
  - vm_compute. reflexivity.
Qed.

End CommandFacts.

(** * Further properties *)

(** ** Strings *)
Module StringFacts.
Import JsString.

Lemma append_String (x : ascii) (a b : string) : String x a +:+ b = String x (a +:+ b).
Proof. reflexivity. Qed.

Lemma append_empty_l (b : string) : EmptyString +:+ b = b.
Proof. reflexivity. Qed.

Lemma append_assoc (a b c : string) : (a +:+ b) +:+ c = a +:+ (b +:+ c).
Proof.
  induction a as [|x a IH]; [reflexivity|].
  rewrite !append_String, IH. reflexivity.
Qed.

Lemma append_empty_r (a : string) : a +:+ EmptyString = a.
Proof.
  induction a as [|x a IH]; [reflexivity|].
  rewrite append_String, IH. reflexivity.
Qed.

Lemma rtrim_snoc_space (v : string) (w : ascii) :
  is_space w = true -> rtrim (v +:+ String w EmptyString) = rtrim v.
Proof.
  intros Hw. induction v as [|c v IH]; simpl.
  - rewrite Hw. reflexivity.
  - rewrite IH. reflexivity.
Qed.

Lemma rtrim_idempotent (s : string) : rtrim (rtrim s) = rtrim s.
Proof.
  induction s as [|c s IH]; simpl; [reflexivity|].
  destruct (is_space c && is_empty (rtrim s)) eqn:E; simpl; [reflexivity|].
  rewrite IH, E. reflexivity.
Qed.

Lemma rtrim_empty_ltrim (s : string) : rtrim s = EmptyString -> ltrim s = EmptyString.
Proof.
  induction s as [|c s IH]; simpl; [reflexivity|].
  destruct (is_space c); simpl.
  - destruct (rtrim s); [auto | discriminate].
  - discriminate.
Qed.

Lemma trim_rtrim (s : string) : trim (rtrim s) = trim s.
Proof.
  unfold trim. induction s as [|c s IH]; simpl; [reflexivity|].
  destruct (is_space c) eqn:Hc; simpl.
  - destruct (rtrim s) as [|d r] eqn:Hr; simpl.
    + rewrite (rtrim_empty_ltrim s Hr). reflexivity.
    + rewrite Hc. exact IH.
  - rewrite Hc. simpl. rewrite Hc. simpl. rewrite rtrim_idempotent. reflexivity.
Qed.

Lemma all_chars_rtrim (p : ascii -> bool) (s : string) :
  all_chars p s = true -> all_chars p (rtrim s) = true.
Proof.
  induction s as [|c s IH]; simpl; [reflexivity|].
  intros H. apply andb_prop in H as [Hc Hs].
  destruct (is_space c && is_empty (rtrim s)); simpl; [reflexivity|].
  rewrite Hc. exact (IH Hs).
Qed.

Lemma all_chars_snoc (p : ascii -> bool) (s : string) (c : ascii) :
  all_chars p (s +:+ String c EmptyString) = all_chars p s && p c.
Proof.
  induction s as [|d s IH]; simpl.
  - rewrite andb_true_r. reflexivity.
  - rewrite IH, andb_assoc. reflexivity.
Qed.

Lemma split_no_separator (s : string) :
  all_chars not_equals_sign s = true -> split "=" s = [s].
Proof.
  induction s as [|c s IH]; simpl; [reflexivity|].
  intros H. apply andb_prop in H as [Hc Hs]. unfold not_equals_sign in Hc.
  apply negb_true_iff in Hc. rewrite Hc, (IH Hs). reflexivity.
Qed.

Lemma ends_with_snoc_LF (s : string) :
  ends_with CR (s +:+ String LF EmptyString) = false.
Proof.
  induction s as [|a r IH]; [reflexivity|].
  rewrite append_String. simpl. destruct r; [reflexivity | exact IH].
Qed.

Lemma join_empty_app (l1 l2 : list string) :
  join "" (l1 ++ l2) = join "" l1 +:+ join "" l2.
Proof.
  induction l1 as [|a [|b l1] IH]; simpl in *.
  - reflexivity.
  - destruct l2; simpl; [rewrite append_empty_r | ]; reflexivity.
  - rewrite IH, append_assoc. reflexivity.
Qed.

Lemma join_snoc (sep : string) (l : list string) (x : string) :
  join sep (l ++ [x]) = match l with
                        | [] => x
                        | _ => join sep l +:+ sep +:+ x
                        end.
Proof.
  induction l as [|a [|b l] IH]; simpl in *; try reflexivity.
  rewrite IH, !append_assoc. reflexivity.
Qed.

End StringFacts.

(** ** The progress parser: field lines, log lines and accessors *)
Module ProgressExtra.
Import JsString FFmpegProgressEmitter StringFacts.

Lemma key_part_app (k rest : string) (seen : bool) :
  is_key k = true ->
  key_part (k +:+ String "=" rest) seen
  = (seen || negb (is_empty k)) && value_part rest false.
Proof.
  revert seen. induction k as [|c k IH]; intros seen H; simpl.
  - rewrite orb_false_r. reflexivity.
  - simpl in H. apply andb_prop in H as [Hc Hk]. apply andb_prop in Hc as [Hs He].
    unfold not_equals_sign in He. apply negb_true_iff in Hs, He.
    rewrite He, Hs, (IH _ Hk). rewrite orb_true_r. reflexivity.
Qed.

Lemma key_part_no_equals (s : string) (seen : bool) :
  all_chars not_equals_sign s = true -> key_part s seen = false.
Proof.
  revert seen. induction s as [|c s IH]; intros seen H; simpl; [reflexivity|].
  simpl in H. apply andb_prop in H as [Hc Hs]. unfold not_equals_sign in Hc.
  apply negb_true_iff in Hc. rewrite Hc. destruct (is_space c); [reflexivity|].
  apply IH, Hs.
Qed.

Lemma last_nonempty_default {A} (x : A) (l : list A) (d1 d2 : A) :
  List.last (x :: l) d1 = List.last (x :: l) d2.
Proof.
  revert x. induction l as [|y l IH]; intros x; [reflexivity|]. exact (IH y).
Qed.

Lemma state_eta (st : state) :
  {| logBuffer := logBuffer st; progressData := progressData st;
     partialProgressData := partialProgressData st |} = st.
Proof. destruct st; reflexivity. Qed.

Section WithToNumber.
Variable stringToNumber : string -> jsnum.

Lemma field_line_stored (st : state) (k v : string) :
  is_key k = true -> k <> EmptyString -> k <> "progress" ->
  v <> EmptyString -> all_chars not_equals_sign v = true ->
  _write stringToNumber (field_line k v) st
  = Ok ({| logBuffer := logBuffer st;
           progressData := progressData st;
           partialProgressData :=
             set_prop k (parse_value (trim v)) (partialProgressData st) |}, []).
Proof.
  intros Hk Hne Hp Hv Hev. unfold _write, field_line.
  replace (ends_with CR _) with false.
  2:{ symmetry. rewrite <- (append_String "=" v), <- append_assoc.
      apply ends_with_snoc_LF. }
  unfold is_field_line. rewrite (key_part_app _ _ _ Hk).
  replace (negb (is_empty k)) with true by (destruct k; [congruence | reflexivity]).
  rewrite (ProgressFacts.value_part_snoc_LF v false Hev (or_intror Hv)). simpl.
  unfold trim, _parseProgress.
  rewrite (ProgressFacts.ltrim_key _ _ Hk), (ProgressFacts.rtrim_key _ _ Hk),
    (ProgressFacts.split_key _ _ Hk).
  rewrite (rtrim_snoc_space v LF eq_refl).
  rewrite (split_no_separator _ (all_chars_rtrim _ _ Hev)). simpl.
  rewrite bool_decide_eq_false_2 by congruence.
  fold (trim (rtrim v)). rewrite trim_rtrim. reflexivity.
Qed.

(** [parseFloat] gives the double nearest to the numeral: an integer above
    [2 ^ 53] is rounded, a fraction is the nearest binary fraction, a
    negative zero keeps its sign. *)
Example parseFloat_rounds :
  parseFloat "9007199254740993" = num_of_Z 9007199254740992
  /\ parseFloat "0.1" = S754_finite false 7205759403792794 (-56)
  /\ parseFloat "-0.0" = S754_zero true
  /\ parseFloat "5000" = num_of_Z 5000
  /\ num_div_1000 (parseFloat "1") = S754_finite false 4611686018427388 (-62).
Proof. repeat split; vm_compute; reflexivity. Qed.

(** A field line other than [progress=...] stores its value in the pending
    record, under its key: when the trimmed value matches [numRegExp], the
    number [parseFloat] gives, which is the double nearest to the numeral;
    the trimmed text otherwise.  It emits no event and leaves the
    committed record and the log buffer alone. *)
Theorem write_field_line (st : state) (k v : string) :
  is_key k = true -> k <> EmptyString -> k <> "progress" ->
  v <> EmptyString -> all_chars not_equals_sign v = true ->
  _write stringToNumber (field_line k v) st
  = Ok ({| logBuffer := logBuffer st;
           progressData := progressData st;
           partialProgressData :=
             set_prop k (parse_value (trim v)) (partialProgressData st) |}, [])
  /\ (numRegExp_test (trim v) = true ->
      parse_value (trim v) = FNum (parseFloat (trim v)))
  /\ (numRegExp_test (trim v) = false -> parse_value (trim v) = FStr (trim v)).
Proof.
  intros Hk Hne Hp Hv Hev. split; [apply field_line_stored; assumption|].
  unfold parse_value. split; intros ->; reflexivity.
Qed.

(** A field line under the key [__proto__] changes nothing: the assignment
    runs the inherited setter, which ignores a number or a string. *)
Theorem write_proto_line (st : state) (v : string) :
  v <> EmptyString -> all_chars not_equals_sign v = true ->
  _write stringToNumber (field_line "__proto__" v) st = Ok (st, []).
Proof.
  intros Hv Hev.
  rewrite (field_line_stored st "__proto__" v) by (reflexivity || discriminate || assumption).
  unfold set_prop. simpl. rewrite state_eta. reflexivity.
Qed.

(** Two field lines under one key before the record completes: the second
    value replaces the first, as if the first line had not been fed. *)
Theorem later_value_overwrites (st : state) (k v1 v2 : string) :
  is_key k = true -> k <> EmptyString -> k <> "progress" ->
  v1 <> EmptyString -> all_chars not_equals_sign v1 = true ->
  v2 <> EmptyString -> all_chars not_equals_sign v2 = true ->
  feed stringToNumber [field_line k v1; field_line k v2] st
  = feed stringToNumber [field_line k v2] st.
Proof.
  intros Hk Hne Hp H1 He1 H2 He2. simpl.
  rewrite !field_line_stored by assumption. simpl.
  rewrite field_line_stored by assumption. simpl.
  unfold set_prop. destruct (String.eqb k "__proto__"); [reflexivity|].
  rewrite insert_insert_eq. reflexivity.
Qed.

(** A chunk without an equals sign that does not end in a carriage return
    is logged: one entry with the chunk as its text and, as its time, the
    committed [out_time] or ["0"] when there is none.  Nothing else changes
    and no event is emitted.  (The committed record must have no field
    called [hasOwnProperty], see [log_line_throws].) *)
Theorem write_log_line (st : state) (chunk : string) :
  all_chars not_equals_sign chunk = true ->
  ends_with CR chunk = false ->
  progressData st !! "hasOwnProperty" = None ->
  _write stringToNumber chunk st
  = Ok ({| logBuffer := logBuffer st ++
                        [{| text := chunk;
                            time := default (FStr "0") (progressData st !! "out_time") |}];
           progressData := progressData st;
           partialProgressData := partialProgressData st |}, []).
Proof.
  intros He Hcr Hown. unfold _write, is_field_line, lastMediaTime.
  rewrite Hcr, (key_part_no_equals _ _ He), Hown.
  destruct (progressData st !! "out_time"); reflexivity.
Qed.

(** Once the committed record has a field called [hasOwnProperty], a chunk
    that would be logged makes [_write] throw a [TypeError]:
    [lastMediaTime] calls the field instead of the inherited method. *)
Theorem log_line_throws (st : state) (chunk : string) (f : field) :
  all_chars not_equals_sign chunk = true ->
  ends_with CR chunk = false ->
  progressData st !! "hasOwnProperty" = Some f ->
  _write stringToNumber chunk st = Err TypeError.
Proof.
  intros He Hcr Hown. unfold _write, is_field_line, lastMediaTime.
  rewrite Hcr, (key_part_no_equals _ _ He), Hown. reflexivity.
Qed.

(** What one chunk can do: the log buffer keeps its entries and gains at
    most one, with the chunk as its text; either no event is emitted and the
    committed record is what it was, or one event is emitted, it is the new
    committed record, and the pending record is empty. *)
Lemma write_step (chunk : string) (st st' : state) (evs : list event) :
  _write stringToNumber chunk st = Ok (st', evs) ->
  (logBuffer st' = logBuffer st
   \/ exists t, logBuffer st' = logBuffer st ++ [{| text := chunk; time := t |}])
  /\ ((evs = [] /\ progressData st' = progressData st)
      \/ (evs = [progressData st'] /\ partialProgressData st' = ∅)).
Proof.
  unfold _write. destruct (ends_with CR chunk).
  { intros [= <- <-]. split; [left | left]; auto. }
  destruct (is_field_line chunk).
  - unfold _parseProgress. case_bool_decide.
    + intros [= <- <-]. split; [left | right]; auto.
    + destruct (split "=" (trim chunk) !! 0%nat); [|discriminate].
      destruct (split "=" (trim chunk) !! 1%nat); [|discriminate].
      intros [= <- <-]. split; [left | left]; auto.
  - destruct (lastMediaTime st) as [t|]; simpl; [|discriminate].
    intros [= <- <-]. split; [right; eauto | left; auto].
Qed.

(** Whatever the chunks are, feeding them never removes or rewrites a log
    entry: the log buffer before is a prefix of the log buffer after, which
    has at most one more entry per chunk. *)
Theorem feed_log_prefix (chunks : list string) (st st' : state) (evs : list event) :
  feed stringToNumber chunks st = Ok (st', evs) ->
  logBuffer st `prefix_of` logBuffer st'
  /\ length (logBuffer st') <= length (logBuffer st) + length chunks.
Proof.
  revert st st' evs. induction chunks as [|c chunks IH]; intros st st' evs; simpl.
  - intros [= <- <-]. split; [reflexivity | lia].
  - destruct (_write stringToNumber c st) as [[st1 ev1]|] eqn:Hw; simpl; [|discriminate].
    destruct (feed stringToNumber chunks st1) as [[st2 ev2]|] eqn:Hf; simpl; [|discriminate].
    intros [= <- <-]. destruct (IH _ _ _ Hf) as [Hp Hl].
    destruct (write_step _ _ _ _ Hw) as [[Hb | [t Hb]] _]; rewrite Hb in *.
    + split; [exact Hp | lia].
    + split.
      * etransitivity; [|exact Hp]. apply prefix_app_r. reflexivity.
      * rewrite length_app in Hl. simpl in Hl. lia.
Qed.

(** The events of a run are the committed records in the order they were
    committed: there is at most one per chunk, and the committed record at
    the end is the last event, or the committed record of the start when no
    event was emitted. *)
Theorem feed_events (chunks : list string) (st st' : state) (evs : list event) :
  feed stringToNumber chunks st = Ok (st', evs) ->
  length evs <= length chunks
  /\ progressData st' = List.last evs (progressData st).
Proof.
  revert st st' evs. induction chunks as [|c chunks IH]; intros st st' evs; simpl.
  - intros [= <- <-]. split; [simpl; lia | reflexivity].
  - destruct (_write stringToNumber c st) as [[st1 ev1]|] eqn:Hw; simpl; [|discriminate].
    destruct (feed stringToNumber chunks st1) as [[st2 ev2]|] eqn:Hf; simpl; [|discriminate].
    intros [= <- <-]. destruct (IH _ _ _ Hf) as [Hl Hd].
    destruct (write_step _ _ _ _ Hw) as [_ [[-> Hc] | [-> _]]].
    + simpl. rewrite <- Hc. split; [lia | exact Hd].
    + split; [simpl; lia|]. rewrite Hd. simpl.
      destruct ev2 as [|e ev2]; [reflexivity|].
      apply (last_nonempty_default e ev2).
Qed.

(** [last(n)] is the end of the logged texts: all of them when there are at
    most [n], the last [n] otherwise, none for [n <= 0]. *)
Theorem last_is_suffix (n : Z) (st : state) :
  last n st = drop (Z.to_nat (Z.of_nat (length (logBuffer st)) - n)) (logData st)
  /\ length (last n st) = Z.to_nat (Z.max 0 (Z.min n (Z.of_nat (length (logBuffer st))))).
Proof.
  assert (Hlen : length (logData st) = length (logBuffer st))
    by (unfold logData; apply length_map).
  assert (H : last n st
              = drop (Z.to_nat (Z.of_nat (length (logBuffer st)) - n)) (logData st)).
  { unfold last. case_bool_decide as E.
    - destruct (logData st); [|simpl in Hlen; lia]. rewrite drop_nil. reflexivity.
    - f_equal. lia. }
  split; [exact H|]. rewrite H, length_drop, Hlen. lia.
Qed.

Section WithNumberToString.
Variable numberToString : jsnum -> string.

(** Logging a chunk and reading the log back: the chunk is the last of the
    logged texts, it is what [last(1)] returns, and [formattedLog()] grows
    by the entry's time in parentheses, a space and the chunk. *)
Theorem logged_chunk_read_back (st : state) (chunk : string) :
  all_chars not_equals_sign chunk = true ->
  ends_with CR chunk = false ->
  progressData st !! "hasOwnProperty" = None ->
  exists st',
    _write stringToNumber chunk st = Ok (st', [])
    /\ logData st' = logData st ++ [chunk]
    /\ last 1 st' = [chunk]
    /\ formattedLog numberToString st'
       = formattedLog numberToString st
         +:+ ("(" +:+ field_text numberToString
                        (default (FStr "0") (progressData st !! "out_time"))
              +:+ ") " +:+ chunk).
Proof.
  intros He Hcr Hown. eexists. split; [apply write_log_line; assumption|].
  split; [|split].
  - unfold logData. simpl. rewrite map_app. reflexivity.
  - destruct (last_is_suffix 1 {| logBuffer := logBuffer st ++
                [{| text := chunk;
                    time := default (FStr "0") (progressData st !! "out_time") |}];
              progressData := progressData st;
              partialProgressData := partialProgressData st |}) as [-> _].
    unfold logData. simpl. rewrite length_app, map_app. simpl.
    replace (Z.to_nat _) with (length (map text (logBuffer st)))
      by (rewrite length_map; lia).
    rewrite drop_app_length. reflexivity.
  - unfold formattedLog. simpl. rewrite map_app, join_empty_app. reflexivity.
Qed.

End WithNumberToString.

End WithToNumber.

Lemma write_field_line_witness :
  is_key "out_time_us" = true /\ "out_time_us" <> EmptyString /\ "out_time_us" <> "progress"
  /\ " 9007199254740993" <> EmptyString
  /\ all_chars not_equals_sign " 9007199254740993" = true
  /\ _write (fun _ => JNaN) (field_line "out_time_us" " 9007199254740993") initial
     = Ok ({| logBuffer := []; progressData := ∅;
              partialProgressData :=
                {[ "out_time_us" := FNum (num_of_Z 9007199254740992) ]} |}, []).
Proof.
  split; [reflexivity|]. split; [discriminate|]. split; [discriminate|].
  split; [discriminate|]. split; [reflexivity|].
  destruct (write_field_line (fun _ => JNaN) initial "out_time_us" " 9007199254740993")
    as [H _]; [reflexivity | discriminate | discriminate | discriminate | reflexivity |].
  refine (eq_trans H _). vm_compute. reflexivity.
Defined.

Lemma write_proto_line_witness :
  "1" <> EmptyString /\ all_chars not_equals_sign "1" = true
  /\ _write (fun _ => JNaN) (field_line "__proto__" "1") initial = Ok (initial, []).
Proof.
  split; [discriminate|]. split; [reflexivity|].
  apply (write_proto_line (fun _ => JNaN) initial "1"); [discriminate | reflexivity].
Defined.

Lemma later_value_overwrites_witness :
  is_key "fps" = true /\ "fps" <> EmptyString /\ "fps" <> "progress"
  /\ "24" <> EmptyString /\ all_chars not_equals_sign "24" = true
  /\ "25" <> EmptyString /\ all_chars not_equals_sign "25" = true
  /\ feed (fun _ => JNaN) [field_line "fps" "24"; field_line "fps" "25"] initial
     = feed (fun _ => JNaN) [field_line "fps" "25"] initial.
Proof.
  split; [reflexivity|]. split; [discriminate|]. split; [discriminate|].
  split; [discriminate|]. split; [reflexivity|].
  split; [discriminate|]. split; [reflexivity|].
  apply (later_value_overwrites (fun _ => JNaN) initial "fps" "24" "25");
    (reflexivity || discriminate).
Defined.

Lemma write_log_line_witness :
  all_chars not_equals_sign "Press [q] to stop" = true
  /\ ends_with CR "Press [q] to stop" = false
  /\ progressData initial !! "hasOwnProperty" = None
  /\ _write (fun _ => JNaN) "Press [q] to stop" initial
     = Ok ({| logBuffer := [{| text := "Press [q] to stop"; time := FStr "0" |}];
              progressData := ∅; partialProgressData := ∅ |}, []).
Proof.
  split; [reflexivity|]. split; [reflexivity|]. split; [reflexivity|].
  apply (write_log_line (fun _ => JNaN) initial "Press [q] to stop"); reflexivity.
Defined.

(** The parser after [hasOwnProperty=1] and [progress=end]. *)
Lemma log_line_throws_witness :
  let st := {| logBuffer := [];
               progressData := {[ "hasOwnProperty" := FNum (num_of_Z 1) ]};
               partialProgressData := ∅ |} in
  feed (fun _ => JNaN) [field_line "hasOwnProperty" "1"; field_line "progress" "end"] initial
  = Ok (st, [progressData st])
  /\ all_chars not_equals_sign "Press [q] to stop" = true
  /\ ends_with CR "Press [q] to stop" = false
  /\ progressData st !! "hasOwnProperty" = Some (FNum (num_of_Z 1))
  /\ _write (fun _ => JNaN) "Press [q] to stop" st = Err TypeError.
Proof.
  intros st. split; [vm_compute; reflexivity|].
  split; [reflexivity|]. split; [reflexivity|]. split; [reflexivity|].
  apply (log_line_throws (fun _ => JNaN) st "Press [q] to stop" (FNum (num_of_Z 1)));
    reflexivity.
Defined.

Lemma feed_log_prefix_witness :
  let st' := {| logBuffer := [{| text := "frame one"; time := FStr "0" |};
                              {| text := "frame two"; time := FStr "0" |}];
                progressData := ∅; partialProgressData := ∅ |} in
  feed (fun _ => JNaN) ["frame one"; field_line "progress" "end"; "frame two"] initial
  = Ok (st', [∅])
  /\ logBuffer initial `prefix_of` logBuffer st'
  /\ length (logBuffer st') <= length (logBuffer initial) + 3.
Proof.
  intros st'.
  assert (H : feed (fun _ => JNaN)
                ["frame one"; field_line "progress" "end"; "frame two"] initial
              = Ok (st', [∅])) by (vm_compute; reflexivity).
  split; [exact H|].
  apply (feed_log_prefix (fun _ => JNaN) _ initial st' [∅] H).
Defined.

Lemma feed_events_witness :
  let done := <["out_time_ms" := FNum (num_of_Z 5)]>
                (<["out_time_us" := FNum (num_of_Z 5000)]>
                   (<["out_time_ms" := FNum (num_of_Z 5000)]> ∅)) in
  let st' := {| logBuffer := []; progressData := done; partialProgressData := ∅ |} in
  feed (fun _ => JNaN) fixup_scenario initial = Ok (st', [done])
  /\ length [done] <= length fixup_scenario
  /\ progressData st' = List.last [done] (progressData initial).
Proof.
  intros done st'.
  assert (H : feed (fun _ => JNaN) fixup_scenario initial = Ok (st', [done]))
    by (vm_compute; reflexivity).
  split; [exact H|].
  apply (feed_events (fun _ => JNaN) fixup_scenario initial st' [done] H).
Defined.

Lemma logged_chunk_read_back_witness :
  all_chars not_equals_sign "Press [q] to stop" = true
  /\ ends_with CR "Press [q] to stop" = false
  /\ progressData initial !! "hasOwnProperty" = None
  /\ exists st',
       _write (fun _ => JNaN) "Press [q] to stop" initial = Ok (st', [])
       /\ logData st' = ["Press [q] to stop"]
       /\ last 1 st' = ["Press [q] to stop"]
       /\ formattedLog (fun _ => "0") st' = "(0) Press [q] to stop".
Proof.
  split; [reflexivity|]. split; [reflexivity|]. split; [reflexivity|].
  apply (logged_chunk_read_back (fun _ => JNaN) (fun _ => "0") initial "Press [q] to stop");
    reflexivity.
Defined.

End ProgressExtra.

(** ** Stream specifiers: what the constructor returns and throws *)
Module StreamSpecifierExtra.
Import FFmpegStreamSpecifier.

(** A specifier the constructor returned holds the owner, the specifier
    string and the owner's type, and it renders: [toString] returns. *)
Theorem constructed_specifier_renders (e : Entity) (raw : rawSpecifier) (this : t) :
  constructor e raw = Ok this ->
  this = {| entity := e; specifier := rawSpecifier_toString raw; entityType := type e |}
  /\ exists rendering, toString this = Ok rendering.
Proof.
  unfold constructor. simpl.
  remember {| entity := e; specifier := rawSpecifier_toString raw; entityType := type e |}
    as built eqn:Hb.
  intros H.
  assert (Hr : Ok this = (match toString built with
                          | Ok _ => Ok built
                          | Err err => Err (InvalidSpecifier err)
                          end)).
  { destruct (type e); [discriminate | symmetry; exact H ..]. }
  destruct (toString built) as [r|err] eqn:Ht; [|discriminate].
  injection Hr as ->. split; [reflexivity | exists r; exact Ht].
Qed.

(** The constructor throws in four cases only, tested in this order: a
    [TypeError] when the specifier is left out or [null] (line 28 calls
    its [toString]); a [TypeError] when the owner is left out or [null]
    (line 29 reads its [type]); [InvalidEntity] when the owner's type is
    undefined; and an error that wraps the cause when the owner is a
    filter chain whose [getOutputPad] throws for the specifier. *)
Theorem constructor_errors (entity : option Entity) (specifier : option rawSpecifier) :
  (specifier = None -> construct entity specifier = Err TypeError)
  /\ (forall raw, specifier = Some raw -> entity = None ->
      construct entity specifier = Err TypeError)
  /\ (forall e raw, entity = Some e -> specifier = Some raw ->
      (type e = TagUndefined -> construct entity specifier = Err InvalidEntity)
      /\ (forall cause,
            type e = TagString "FilterChain" ->
            getOutputPad e (rawSpecifier_toString raw) = Err cause ->
            construct entity specifier = Err (InvalidSpecifier cause)))
  /\ (forall err, construct entity specifier = Err err ->
      (err = TypeError /\ specifier = None)
      \/ (err = TypeError /\ specifier <> None /\ entity = None)
      \/ (exists e raw, entity = Some e /\ specifier = Some raw
                        /\ err = InvalidEntity /\ type e = TagUndefined)
      \/ (exists e raw cause,
            entity = Some e /\ specifier = Some raw
            /\ err = InvalidSpecifier cause
            /\ type e = TagString "FilterChain"
            /\ getOutputPad e (rawSpecifier_toString raw) = Err cause)).
Proof.
  split; [|split; [|split]].
  - intros ->. reflexivity.
  - intros raw -> ->. reflexivity.
  - intros e raw -> ->. split.
    + intros Ht. unfold construct, constructor. simpl. rewrite Ht. reflexivity.
    + intros cause Ht Hp. unfold construct, constructor, toString. simpl.
      rewrite Ht. simpl. rewrite Hp. reflexivity.
  - intros err. destruct specifier as [raw|]; simpl.
    2:{ intros [= <-]. left. split; reflexivity. }
    destruct entity as [e|]; simpl.
    2:{ intros [= <-]. right. left. repeat split. discriminate. }
    unfold constructor, toString. simpl. destruct (type e) as [|s|] eqn:Ht.
    + intros [= <-]. right. right. left. exists e, raw. repeat split. exact Ht.
    + simpl. destruct (String.eqb s "FFmpegInput"); [discriminate|].
      destruct (String.eqb s "FilterChain") eqn:Hs; [|discriminate].
      apply String.eqb_eq in Hs as ->.
      destruct (getOutputPad e (rawSpecifier_toString raw)) as [pad|cause] eqn:Hp; simpl;
        [discriminate|].
      intros [= <-]. right. right. right. exists e, raw, cause. repeat split; assumption.
    + discriminate.
Qed.

(** A specifier on an input, given as a string or as a stream index that
    is printed in digits, is constructed, and renders as the input's
    label, a colon and the specifier; a specifier that is left out throws
    a [TypeError] although the owner is an input. *)
Theorem input_specifier_renders (e : Entity) (specifier : option rawSpecifier) :
  type e = TagString "FFmpegInput" ->
  (forall raw, specifier = Some raw -> printed_in_digits raw = true ->
     exists this, construct (Some e) specifier = Ok this
                  /\ toString this = Ok (inputLabel e +:+ ":" +:+ rawSpecifier_toString raw))
  /\ (specifier = None -> construct (Some e) specifier = Err TypeError).
Proof.
  intros Ht. split.
  - intros raw -> _. unfold construct, constructor, toString. simpl. rewrite Ht. simpl.
    eexists. split; reflexivity.
  - intros ->. reflexivity.
Qed.

(** A specifier on a filter chain is constructed when the chain resolves
    the pad, and renders as the pad name in square brackets. *)
Theorem chain_specifier_renders (e : Entity) (raw : rawSpecifier) (pad : string) :
  type e = TagString "FilterChain" ->
  getOutputPad e (rawSpecifier_toString raw) = Ok pad ->
  exists this, constructor e raw = Ok this
               /\ toString this = Ok ("[" +:+ pad +:+ "]").
Proof.
  intros Ht Hp. unfold constructor, toString. simpl. rewrite Ht. simpl. rewrite Hp. simpl.
  eexists. split; [reflexivity|]. simpl. rewrite ?Ht; simpl; rewrite ?Hp. reflexivity.
Qed.

Lemma constructed_specifier_renders_witness :
  constructor (entity (Sample.input_stream "1")) (SpecIndex 0) = Ok (Sample.input_stream "1")
  /\ exists rendering, toString (Sample.input_stream "1") = Ok rendering.
Proof.
  assert (H : constructor (entity (Sample.input_stream "1")) (SpecIndex 0)
              = Ok (Sample.input_stream "1")) by reflexivity.
  split; [exact H|].
  apply (constructed_specifier_renders _ _ _ H).
Defined.

Lemma constructor_errors_witness :
  let chain := {| type := TagString "FilterChain"; inputLabel := "undefined";
                  getOutputPad := fun _ => Err TypeError |} in
  construct (Some chain) None = Err TypeError
  /\ construct None (Some (SpecIndex 0)) = Err TypeError
  /\ construct (Some chain) (Some (SpecIndex 0)) = Err (InvalidSpecifier TypeError).
Proof.
  intros chain. split; [|split].
  - apply (constructor_errors (Some chain) None). reflexivity.
  - apply (constructor_errors None (Some (SpecIndex 0))) with (raw := SpecIndex 0);
      reflexivity.
  - destruct (constructor_errors (Some chain) (Some (SpecIndex 0))) as (_ & _ & H & _).
    apply (H chain (SpecIndex 0) eq_refl eq_refl); reflexivity.
Defined.

Lemma input_specifier_renders_witness :
  type (entity (Sample.input_stream "1")) = TagString "FFmpegInput"
  /\ printed_in_digits (SpecString "v:0") = true
  /\ (exists this,
        construct (Some (entity (Sample.input_stream "1"))) (Some (SpecString "v:0")) = Ok this
        /\ toString this = Ok "1:v:0")
  /\ construct (Some (entity (Sample.input_stream "1"))) None = Err TypeError.
Proof.
  split; [reflexivity|]. split; [reflexivity|]. split.
  - destruct (input_specifier_renders (entity (Sample.input_stream "1"))
                (Some (SpecString "v:0")) eq_refl) as [H _].
    apply (H (SpecString "v:0")); reflexivity.
  - apply (input_specifier_renders (entity (Sample.input_stream "1")) None); reflexivity.
Defined.

Lemma chain_specifier_renders_witness :
  let chain := {| type := TagString "FilterChain"; inputLabel := "undefined";
                  getOutputPad := fun s => Ok ("chain0_" +:+ s) |} in
  type chain = TagString "FilterChain"
  /\ getOutputPad chain (rawSpecifier_toString (SpecIndex 0)) = Ok "chain0_0"
  /\ exists this, constructor chain (SpecIndex 0) = Ok this
                  /\ toString this = Ok "[chain0_0]".
Proof.
  intros chain. split; [reflexivity|]. split; [reflexivity|].
  apply (chain_specifier_renders chain (SpecIndex 0) "chain0_0"); reflexivity.
Defined.

End StreamSpecifierExtra.

(** ** Filter graphs: positions, strings and [wrap] *)
Module FilterGraphExtra.
Import JsValue FilterGraph StringFacts.

Lemma findIndex_first (c : loc) (l : list loc) (i : Z) :
  (findIndex c l i = (-1)%Z /\ (c ∉ l) /\ (0 <= i)%Z)
  \/ (exists n : nat, findIndex c l i = (i + Z.of_nat n)%Z
                      /\ l !! n = Some c
                      /\ forall m : nat, (m < n)%nat -> l !! m <> Some c)
  \/ (i < 0)%Z.
Proof.
  revert i. induction l as [|c' l IH]; intros i; simpl.
  - destruct (Z_lt_dec i 0); [right; right; assumption|].
    left. repeat split; [apply not_elem_of_nil | lia].
  - destruct (Z_lt_dec i 0); [right; right; assumption|].
    case_bool_decide as E.
    + subst c'. right. left. exists 0%nat. repeat split; [f_equal; lia | intros m Hm; lia].
    + destruct (IH (i + 1)%Z) as [(H1 & H2 & _) | [(k & H1 & H2 & H3) | ?]]; [| |lia].
      * left. repeat split; [exact H1 | | lia].
        rewrite elem_of_cons. intros [-> | ?]; [congruence | contradiction].
      * right. left. exists (S k). repeat split; [lia | exact H2 |].
        intros [|m] Hm; simpl; [congruence | apply H3; lia].
Qed.

(** [chainPosition] returns [-1] exactly when the graph does not hold the
    chain; otherwise it returns the index of the chain's first occurrence
    in the graph's list. *)
Theorem chainPosition_first_occurrence (σ : store) (g c : loc) :
  (chainPosition σ g (VChain c) = (-1)%Z <-> c ∉ chains_of σ g)
  /\ (forall n : nat,
        chainPosition σ g (VChain c) = Z.of_nat n <->
        chains_of σ g !! n = Some c
        /\ forall m : nat, (m < n)%nat -> chains_of σ g !! m <> Some c).
Proof.
  unfold chainPosition.
  destruct (findIndex_first c (chains_of σ g) 0)
    as [(H1 & H2 & _) | [(k & H1 & H2 & H3) | ?]]; [| |lia].
  - rewrite H1. split; [tauto|]. intros n. split; [lia|].
    intros [Hn _]. exfalso. apply H2. eapply list_elem_of_lookup_2, Hn.
  - rewrite H1. split.
    + split; [lia|]. intros Hc. exfalso. apply Hc. eapply list_elem_of_lookup_2, H2.
    + intros n. split.
      * intros Hn. assert (n = k) as -> by lia. split; assumption.
      * intros [Hn Hm]. f_equal.
        destruct (Nat.lt_trichotomy n k) as [Hlt | [-> | Hlt]]; [|reflexivity|].
        -- exfalso. apply (H3 n Hlt Hn).
        -- exfalso. apply (Hm k Hlt H2).
Qed.

(** A chain added to a graph that did not hold it is found at the end: its
    position is the number of chains the graph held before. *)
Theorem chainPosition_after_add (σ : store) (g c : loc) :
  g ∈ dom (graphs σ) ->
  c ∉ chains_of σ g ->
  chainPosition (fst (addFilterChain g (VChain c) σ)) g (VChain c)
  = Z.of_nat (length (chains_of σ g)).
Proof.
  intros Hg Hc.
  apply (proj2 (chainPosition_first_occurrence _ g c)).
  rewrite (FilterGraphFacts.chains_of_addFilterChain σ g c g Hg).
  rewrite bool_decide_eq_true_2 by reflexivity. split.
  - rewrite lookup_app_r by lia. rewrite Nat.sub_diag. reflexivity.
  - intros m Hm. rewrite lookup_app_l by exact Hm.
    intros Hl. apply Hc. eapply list_elem_of_lookup_2, Hl.
Qed.

Section WithExternals.
Context `{Externals}.

(** The string of a graph after a chain it did not hold is added: the
    chain's string alone for a graph without chains, and otherwise the
    earlier string, a semicolon and the chain's string. *)
Theorem toString_after_add (σ : store) (g c : loc) (obj : FilterChainObj) :
  g ∈ dom (graphs σ) ->
  chains σ !! c = Some obj ->
  c ∉ chains_of σ g ->
  toString (fst (addFilterChain g (VChain c) σ)) g
  = match chains_of σ g with
    | [] => FilterChain_toString (set_filterGraph g obj)
    | _ => toString σ g +:+ ";" +:+ FilterChain_toString (set_filterGraph g obj)
    end.
Proof.
  intros Hg Hobj Hc. unfold toString.
  rewrite (FilterGraphFacts.chains_of_addFilterChain σ g c g Hg).
  rewrite bool_decide_eq_true_2 by reflexivity.
  rewrite map_app. simpl (map _ [c]). rewrite join_snoc.
  rewrite lookup_alter_eq, Hobj. simpl.
  assert (Hmap : map (fun c0 => default "" (FilterChain_toString <$>
                        alter (set_filterGraph g) c (chains σ) !! c0)) (chains_of σ g)
                 = map (fun c0 => default "" (FilterChain_toString <$> chains σ !! c0))
                       (chains_of σ g)).
  { apply map_ext_in. intros c0 Hin. rewrite lookup_alter_ne; [reflexivity|].
    intros ->. apply Hc. apply list_elem_of_In, Hin. }
  rewrite Hmap. destruct (chains_of σ g); reflexivity.
Qed.

End WithExternals.

(** [wrap] on a filter chain creates a graph that was not in the store,
    whose only chain is the wrapped one; the chain's back-reference now
    names the new graph, and the chain list of every graph that was in the
    store is what it was. *)
Theorem wrap_chain_new_graph (σ : store) (c : loc) :
  c ∈ dom (chains σ) ->
  exists σ' g,
    wrap (VChain c) σ = (σ', Ok (VGraph g))
    /\ (g ∉ dom (graphs σ))
    /\ chains_of σ' g = [c]
    /\ filterGraph_of σ' c = Some g
    /\ forall g', g' ∈ dom (graphs σ) -> chains_of σ' g' = chains_of σ g'.
Proof.
  intros Hc.
  exists {| graphs := alter (fun l => l ++ [c]) (fresh (dom (graphs σ)))
                        (<[fresh (dom (graphs σ)) := []]> (graphs σ));
            chains := alter (set_filterGraph (fresh (dom (graphs σ)))) c (chains σ) |},
         (fresh (dom (graphs σ))).
  split; [reflexivity|].
  pose proof (is_fresh (dom (graphs σ))) as Hf.
  split; [exact Hf|]. split; [|split].
  - unfold chains_of. simpl. rewrite lookup_alter_eq, lookup_insert_eq. reflexivity.
  - unfold filterGraph_of. simpl. apply elem_of_dom in Hc as [o Ho].
    rewrite lookup_alter_eq, Ho. reflexivity.
  - intros g' Hg'. unfold chains_of. simpl.
    assert (fresh (dom (graphs σ)) <> g') by (intros E; apply Hf; rewrite E; exact Hg').
    rewrite lookup_alter_ne, lookup_insert_ne by assumption. reflexivity.
Qed.

Lemma chainPosition_after_add_witness :
  1%nat ∈ dom (graphs two_graphs_one_chain)
  /\ (0%nat ∉ chains_of two_graphs_one_chain 1%nat)
  /\ chainPosition (fst (addFilterChain 1%nat (VChain 0%nat) two_graphs_one_chain))
                   1%nat (VChain 0%nat) = 0%Z.
Proof.
  assert (Hg : 1%nat ∈ dom (graphs two_graphs_one_chain))
    by (unfold two_graphs_one_chain; simpl; set_solver).
  assert (Hc : 0%nat ∉ chains_of two_graphs_one_chain 1%nat)
    by (vm_compute; apply not_elem_of_nil).
  split; [exact Hg|]. split; [exact Hc|].
  apply (chainPosition_after_add two_graphs_one_chain 1%nat 0%nat Hg Hc).
Defined.

Lemma toString_after_add_witness :
  let scale := {| nodes := [{| filterName := "scale"; params := inl ["640"; "-1"] |}];
                  filterGraph := None |} in
  let σ := {| graphs := {[ 0%nat := [] ]}; chains := {[ 0%nat := scale ]} |} in
  0%nat ∈ dom (graphs σ)
  /\ chains σ !! 0%nat = Some scale
  /\ (0%nat ∉ chains_of σ 0%nat)
  /\ toString (H := Sample.externals) (fst (addFilterChain 0%nat (VChain 0%nat) σ)) 0%nat
     = "scale=640:-1".
Proof.
  intros scale σ.
  assert (Hg : 0%nat ∈ dom (graphs σ)) by (unfold σ; simpl; set_solver).
  assert (Hc : 0%nat ∉ chains_of σ 0%nat) by (vm_compute; apply not_elem_of_nil).
  split; [exact Hg|]. split; [reflexivity|]. split; [exact Hc|].
  apply (toString_after_add (H := Sample.externals) σ 0%nat 0%nat scale Hg eq_refl Hc).
Defined.

Lemma wrap_chain_new_graph_witness :
  0%nat ∈ dom (chains two_graphs_one_chain)
  /\ exists σ' g,
       wrap (VChain 0%nat) two_graphs_one_chain = (σ', Ok (VGraph g))
       /\ (g ∉ dom (graphs two_graphs_one_chain))
       /\ chains_of σ' g = [0%nat]
       /\ filterGraph_of σ' 0%nat = Some g
       /\ forall g', g' ∈ dom (graphs two_graphs_one_chain) ->
                     chains_of σ' g' = chains_of two_graphs_one_chain g'.
Proof.
  assert (Hc : 0%nat ∈ dom (chains two_graphs_one_chain))
    by (unfold two_graphs_one_chain; simpl; set_solver).
  split; [exact Hc|].
  apply (wrap_chain_new_graph two_graphs_one_chain 0%nat Hc).
Defined.

End FilterGraphExtra.

(** ** Options: validation, the store and rendering *)
Module OptionExtra.
Import JsValue FFmpegOption.

(** A constructor call that throws leaves the store as it was, and what it
    throws is what [validate] threw. *)
Theorem constructor_failure_keeps_store
    (σ σ' : store) (name : string) (arg : value) (e : error) :
  constructor name arg σ = (σ', Err e) ->
  σ' = σ /\ validate name (default_null arg) = Err e.
Proof.
  destruct (validate name (default_null arg)) as [[]|e'] eqn:Hv.
  - destruct (OptionFacts.constructor_validated σ name arg Hv) as (σ1 & -> & _).
    discriminate.
  - exfalso. revert Hv. unfold validate.
    destruct (_ && _); [|discriminate].
    destruct (_ || _); [discriminate|].
    destruct (has_toString_function _) as [[]|]; discriminate.
  - unfold constructor, bind, lift. rewrite Hv. intros [= <- <-]. split; reflexivity.
Qed.

(** The constructor changes the store only when the name is one of
    [FILTER_OPTIONS] and the argument is a filter chain or a filter node:
    under any other name, and for any other argument, the store after the
    call is the store before it. *)
Theorem constructor_keeps_store (σ : store) (name : string) (arg : value) :
  includes FILTER_OPTIONS name = false
  \/ instanceof_FilterChain arg || instanceof_FilterNode arg = false ->
  fst (constructor name arg σ) = σ.
Proof.
  intros H. unfold constructor, bind, lift.
  destruct (validate name (default_null arg)) as [[]|e]; [| |reflexivity].
  - destruct (includes FILTER_OPTIONS name); [|reflexivity].
    destruct H as [H|H]; [discriminate|].
    destruct arg; try discriminate; reflexivity.
  - destruct (includes FILTER_OPTIONS name); [|reflexivity].
    destruct H as [H|H]; [discriminate|].
    destruct arg; try discriminate; reflexivity.
Qed.

(** An object whose [toString] is missing or is not a function is refused
    with [InvalidArgument], under every name; [validate] called with
    [undefined] itself throws a [TypeError] when it reads the property. *)
Theorem constructor_without_toString (σ : store) (name : string) :
  constructor name (VObject Absent) σ
  = (σ, Err (InvalidArgument "InvalidArgument: arg must be a string value or null, or must have a toString method"))
  /\ constructor name (VObject NotAFunction) σ
     = (σ, Err (InvalidArgument "InvalidArgument: arg must be a string value or null, or must have a toString method"))
  /\ validate name VUndefined = Err TypeError.
Proof. repeat split. Qed.

Section WithExternals.
Context `{Externals}.

(** An option the constructor returned has the flag of a dash and the
    stored name.  It renders, in any store, to its flag alone when the
    argument was [null] or [undefined]; otherwise [toCommandArray] calls
    the argument's [toString], which [validate] only tested to be a
    function: what the call returns is the second token, and what it
    throws is thrown.  The call returns for every accepted argument other
    than a stream specifier and an object whose [toString] throws. *)
Theorem constructed_option_renders
    (σ σ' : store) (name : string) (arg : value) (o : t) :
  constructor name arg σ = (σ', Ok o) ->
  optionName o = "-" +:+ FFmpegOption.name o
  /\ (is_nullish arg = true -> forall σ2, toCommandArray σ2 o = Ok [optionName o])
  /\ (is_nullish arg = false ->
      forall σ2,
        toCommandArray σ2 o
        = try! s := Stringify.value_toString σ2 arg in Ok [optionName o; s])
  /\ (is_nullish arg = false ->
      instanceof_FFmpegStreamSpecifier arg = false ->
      (forall e, arg <> VObject (Throws e)) ->
      forall σ2, exists s,
        Stringify.value_toString σ2 arg = Ok s
        /\ toCommandArray σ2 o = Ok [optionName o; s])
  /\ (forall e, arg = VObject (Throws e) ->
      forall σ2, toCommandArray σ2 o = Err e).
Proof.
  intros Hc.
  destruct (validate name (default_null arg)) as [[]|e] eqn:Hv.
  - destruct (OptionFacts.constructor_validated σ name arg Hv) as (σ1 & Hc' & _).
    rewrite Hc' in Hc. injection Hc as <- <-.
    split; [reflexivity|]. split; [|split; [|split]].
    + intros Hn σ2. destruct arg; try discriminate; reflexivity.
    + intros Hn σ2. unfold toCommandArray. simpl.
      destruct arg; try discriminate; reflexivity.
    + intros Hn Hs Ht σ2. unfold toCommandArray. simpl.
      destruct arg as [ | | | | | | |[| |s|e]| | | | ]; try discriminate;
        try (exfalso; apply (Ht e); reflexivity);
        simpl; eexists; split; reflexivity.
    + intros e -> σ2. reflexivity.
  - exfalso. revert Hv. unfold validate.
    destruct (_ && _); [|discriminate].
    destruct (_ || _); [discriminate|].
    destruct (has_toString_function _) as [[]|]; discriminate.
  - unfold constructor, bind, lift in Hc. rewrite Hv in Hc. discriminate.
Qed.

(** [toCommandString] is the tokens of [toCommandArray] separated by one
    space, without quotes, and throws when [toCommandArray] throws. *)
Theorem toCommandString_joins_tokens (σ : store) (o : t) :
  toCommandString σ o
  = try! tokens := toCommandArray σ o in Ok (JsString.join " " tokens).
Proof.
  unfold toCommandString, toCommandArray.
  destruct (is_null (arg o)); [reflexivity|].
  destruct (Stringify.value_toString σ (arg o)); reflexivity.
Qed.

End WithExternals.

Lemma constructor_failure_keeps_store_witness :
  constructor "vf" (VArray []) Sample.empty_store
  = (Sample.empty_store,
     Err (InvalidArgument "InvalidArgument: arg must be a string value or null, or must be a single-value type and have a toString method"))
  /\ Sample.empty_store = Sample.empty_store
  /\ validate "vf" (default_null (VArray []))
     = Err (InvalidArgument "InvalidArgument: arg must be a string value or null, or must be a single-value type and have a toString method").
Proof.
  assert (H : constructor "vf" (VArray []) Sample.empty_store
              = (Sample.empty_store,
                 Err (InvalidArgument "InvalidArgument: arg must be a string value or null, or must be a single-value type and have a toString method")))
    by reflexivity.
  split; [exact H|].
  apply (constructor_failure_keeps_store _ _ _ _ _ H).
Defined.

Lemma constructor_keeps_store_witness :
  (includes FILTER_OPTIONS "c:v" = false
   \/ instanceof_FilterChain (VChain 0%nat) || instanceof_FilterNode (VChain 0%nat) = false)
  /\ fst (constructor "c:v" (VChain 0%nat) FilterGraph.two_graphs_one_chain)
     = FilterGraph.two_graphs_one_chain.
Proof.
  assert (H : includes FILTER_OPTIONS "c:v" = false
              \/ instanceof_FilterChain (VChain 0%nat) || instanceof_FilterNode (VChain 0%nat)
                 = false) by (left; reflexivity).
  split; [exact H|].
  apply (constructor_keeps_store FilterGraph.two_graphs_one_chain "c:v" (VChain 0%nat) H).
Defined.

Lemma constructed_option_renders_witness :
  let failing := VObject (Throws (InvalidArgument "no string")) in
  let o := {| name := "metadata"; optionName := "-metadata"; arg := failing |} in
  constructor "metadata" failing Sample.empty_store = (Sample.empty_store, Ok o)
  /\ toCommandArray (H := Sample.externals) Sample.empty_store o
     = Err (InvalidArgument "no string").
Proof.
  intros failing o.
  assert (H : constructor "metadata" failing Sample.empty_store
              = (Sample.empty_store, Ok o)) by reflexivity.
  split; [exact H|].
  destruct (constructed_option_renders (H := Sample.externals) _ _ _ _ _ H)
    as (_ & _ & _ & _ & Ht).
  apply (Ht (InvalidArgument "no string")). reflexivity.
Defined.

End OptionExtra.

(** ** Outputs: construction, rendering and additions *)
Module OutputExtra.
Import JsValue FFmpegOutput LoopFacts.

Lemma rmapM_append {A B} (f : A -> result B) (l1 l2 : list A) :
  rmapM f (l1 ++ l2)
  = try! b1 := rmapM f l1 in try! b2 := rmapM f l2 in Ok (b1 ++ b2).
Proof.
  induction l1 as [|a l1 IH]; simpl.
  - destruct (rmapM f l2); reflexivity.
  - destruct (f a); simpl; [|reflexivity].
    rewrite IH. destruct (rmapM f l1); simpl; [|reflexivity].
    destruct (rmapM f l2); reflexivity.
Qed.

Lemma validateStreams_array (items : list value) : validateStreams (VArray items) = Ok items.
Proof.
  unfold validateStreams. replace (existsb _ items) with false; [reflexivity|].
  symmetry. induction items as [|x l IH]; [reflexivity | exact IH].
Qed.

Lemma constructor_plain (σ : store) (name : string) (arg : option string) :
  FFmpegOption.constructor name (from_option VStr VNull arg) σ
  = (σ, Ok {| FFmpegOption.name := name;
              FFmpegOption.optionName := "-" +:+ name;
              FFmpegOption.arg := from_option VStr VNull arg |}).
Proof.
  assert (Hv : FFmpegOption.validate name
                 (FFmpegOption.default_null (from_option VStr VNull arg)) = Ok true)
    by (destruct arg; reflexivity).
  destruct (OptionFacts.constructor_validated σ name _ Hv) as (σ' & -> & Hσ).
  assert (Hf : is_filter (from_option VStr VNull arg) = false) by (destruct arg; reflexivity).
  rewrite Hf, andb_false_r in *. rewrite (Hσ eq_refl).
  destruct arg; reflexivity.
Qed.

Lemma validateOptions_plain (σ : store) (entries : list (string * option string)) :
  validateOptions (plain_entries entries) σ = (σ, Ok (plain_options entries)).
Proof.
  unfold validateOptions. induction entries as [|[name arg] entries IH]; [reflexivity|].
  simpl. unfold bind at 1. rewrite constructor_plain.
  unfold bind at 1. rewrite IH. reflexivity.
Qed.

Section WithExternals.
Context `{Externals}.

Lemma plain_options_tokens (σ : store) (entries : list (string * option string)) :
  exists toks, rmapM (FFmpegOption.toCommandArray σ) (plain_options entries) = Ok toks
               /\ concat toks = plain_tokens entries.
Proof.
  induction entries as [|[name arg] entries (toks & Hr & Hc)].
  - exists []. split; reflexivity.
  - simpl. rewrite Hr. destruct arg as [s|]; simpl.
    + exists (["-" +:+ name; s] :: toks). rewrite <- Hc. split; reflexivity.
    + exists (["-" +:+ name] :: toks). rewrite <- Hc. split; reflexivity.
Qed.

(** An output constructed with a url and options whose arguments are
    strings or [null] leaves the store alone, has no streams, and renders,
    in any store, to a flag and its argument for each option with a
    string, a flag alone for each option with [null], in the order of the
    options, and the url last. *)
Theorem plain_output_renders
    (σ : store) (url : string) (entries : list (string * option string)) :
  url <> EmptyString ->
  constructor url (plain_entries entries) σ
  = (σ, Ok {| url := url; options := plain_options entries; streams := [] |})
  /\ forall σ2,
       toCommandArray σ2 {| url := url; options := plain_options entries; streams := [] |}
       = Ok (plain_tokens entries ++ [url]).
Proof.
  intros Hu. split.
  - unfold constructor. destruct url; [congruence|]. simpl.
    unfold bind. rewrite validateOptions_plain. reflexivity.
  - intros σ2. rewrite OutputFacts.toCommandArray_tokens. simpl.
    destruct (plain_options_tokens σ2 entries) as (toks & -> & <-). reflexivity.
Qed.

(** An output without a url is refused before its options are looked at:
    the store stays as it was, whatever the options are. *)
Lemma constructor_without_url (σ : store) (options : list (string * value)) :
  constructor EmptyString options σ = (σ, Err RequiredFieldMissing).
Proof. reflexivity. Qed.

Lemma map_tokens_length (σ : store) (l : list value) (maps : list (list string)) :
  rmapM (map_tokens σ) l = Ok maps -> length (concat maps) = 2 * length l.
Proof.
  revert maps. induction l as [|x l IH]; intros maps; simpl.
  - intros [= <-]. reflexivity.
  - unfold map_tokens at 1. destruct (Stringify.value_toString σ x); simpl; [|discriminate].
    destruct (rmapM (map_tokens σ) l) as [ms|]; simpl; [|discriminate].
    intros [= <-]. simpl. rewrite (IH ms eq_refl). lia.
Qed.

(** What [toCommandArray] returns ends with the url, starts with the tokens
    of the options, and has two more tokens for each stream. *)
Theorem toCommandArray_shape (σ : store) (this : t) (toks : list string) :
  toCommandArray σ this = Ok toks ->
  List.last toks EmptyString = url this
  /\ exists opts,
       rmapM (FFmpegOption.toCommandArray σ) (options this) = Ok opts
       /\ firstn (length (concat opts)) toks = concat opts
       /\ length toks = length (concat opts) + 2 * length (streams this) + 1.
Proof.
  rewrite OutputFacts.toCommandArray_tokens.
  destruct (rmapM (FFmpegOption.toCommandArray σ) (options this)) as [opts|]; simpl;
    [|discriminate].
  destruct (rmapM (map_tokens σ) (streams this)) as [maps|] eqn:Hm; simpl; [|discriminate].
  intros [= <-]. split.
  - rewrite app_assoc. apply last_last.
  - exists opts. split; [reflexivity|]. split.
    + rewrite firstn_app, Nat.sub_diag, firstn_all. simpl. apply app_nil_r.
    + rewrite !length_app, (map_tokens_length _ _ _ Hm). simpl. lia.
Qed.

(** Streams added in two calls are the streams added in one call with the
    two lists one after the other. *)
Theorem addStreams_twice (this : t) (l1 l2 : list value) :
  (try! this1 := addStreams (VArray l1) this in addStreams (VArray l2) this1)
  = addStreams (VArray (l1 ++ l2)) this.
Proof.
  unfold addStreams. rewrite !validateStreams_array. simpl.
  rewrite app_assoc. reflexivity.
Qed.

(** Options added to an output render after the options it had and before
    its first [-map]: the streams and the url stay where they were. *)
Theorem addOptions_renders_between
    (σ σ' : store) (this this' : t) (options : list (string * value)) :
  addOptions options this σ = (σ', Ok this') ->
  exists added,
    validateOptions options σ = (σ', Ok added)
    /\ FFmpegOutput.options this' = FFmpegOutput.options this ++ added
    /\ streams this' = streams this
    /\ url this' = url this
    /\ forall σ2,
         toCommandArray σ2 this'
         = try! before := rmapM (FFmpegOption.toCommandArray σ2) (FFmpegOutput.options this) in
           try! new := rmapM (FFmpegOption.toCommandArray σ2) added in
           try! maps := rmapM (map_tokens σ2) (streams this) in
           Ok (concat before ++ concat new ++ concat maps ++ [url this]).
Proof.
  unfold addOptions, bind.
  destruct (validateOptions options σ) as [σ1 [added|e]]; [|discriminate].
  intros [= <- <-]. exists added. repeat split.
  intros σ2. rewrite OutputFacts.toCommandArray_tokens. simpl. rewrite rmapM_append.
  destruct (rmapM _ (FFmpegOutput.options this)); simpl; [|reflexivity].
  destruct (rmapM _ added); simpl; [|reflexivity].
  destruct (rmapM _ (streams this)); simpl; [|reflexivity].
  rewrite concat_app, <- app_assoc. reflexivity.
Qed.

(** [addStreams] lets [null] and [undefined] through, and the output
    cannot be rendered afterwards: where the options and the earlier
    streams render, [toCommandArray] throws a [TypeError]. *)
Theorem null_stream_throws
    (σ : store) (this : t) (x : value) (toks maps : list (list string)) :
  is_nullish x = true ->
  rmapM (FFmpegOption.toCommandArray σ) (options this) = Ok toks ->
  rmapM (map_tokens σ) (streams this) = Ok maps ->
  exists this',
    addStreams (VArray [x]) this = Ok this'
    /\ streams this' = streams this ++ [x]
    /\ toCommandArray σ this' = Err TypeError.
Proof.
  intros Hx Ho Hb. eexists. split; [|split].
  - unfold addStreams. rewrite validateStreams_array. reflexivity.
  - reflexivity.
  - rewrite OutputFacts.toCommandArray_tokens. simpl. rewrite Ho, rmapM_append, Hb. simpl.
    destruct x; try discriminate; reflexivity.
Qed.

End WithExternals.

Lemma plain_output_renders_witness :
  "/dev/null" <> EmptyString
  /\ constructor "/dev/null" (plain_entries [("c:v", Some "libx264"); ("an", None)])
       Sample.empty_store
     = (Sample.empty_store,
        Ok {| url := "/dev/null";
              options := plain_options [("c:v", Some "libx264"); ("an", None)];
              streams := [] |})
  /\ forall σ2,
       toCommandArray (H := Sample.externals) σ2
         {| url := "/dev/null";
            options := plain_options [("c:v", Some "libx264"); ("an", None)];
            streams := [] |}
       = Ok ["-c:v"; "libx264"; "-an"; "/dev/null"].
Proof.
  split; [discriminate|].
  apply (plain_output_renders (H := Sample.externals) Sample.empty_store "/dev/null"
           [("c:v", Some "libx264"); ("an", None)]).
  discriminate.
Defined.

Lemma toCommandArray_shape_witness :
  let out := {| url := "gen.mov"; options := options Sample.gen_mov;
                streams := [VSpecifier (Sample.input_stream "0")] |} in
  toCommandArray (H := Sample.externals) Sample.empty_store out
  = Ok ["-c:v"; "prores"; "-map"; "0:0"; "gen.mov"]
  /\ List.last ["-c:v"; "prores"; "-map"; "0:0"; "gen.mov"] EmptyString = url out
  /\ exists opts,
       rmapM (FFmpegOption.toCommandArray (H := Sample.externals) Sample.empty_store)
         (options out) = Ok opts
       /\ firstn (length (concat opts)) ["-c:v"; "prores"; "-map"; "0:0"; "gen.mov"]
          = concat opts
       /\ length ["-c:v"; "prores"; "-map"; "0:0"; "gen.mov"]
          = length (concat opts) + 2 * length (streams out) + 1.
Proof.
  intros out.
  assert (H : toCommandArray (H := Sample.externals) Sample.empty_store out
              = Ok ["-c:v"; "prores"; "-map"; "0:0"; "gen.mov"]) by reflexivity.
  split; [exact H|].
  apply (toCommandArray_shape (H := Sample.externals) Sample.empty_store out _ H).
Defined.

Lemma addOptions_renders_between_witness :
  let this' := {| url := "gen.mov";
                  options := options Sample.gen_mov ++ plain_options [("an", None)];
                  streams := [] |} in
  addOptions (plain_entries [("an", None)]) Sample.gen_mov Sample.empty_store
  = (Sample.empty_store, Ok this')
  /\ exists added,
       validateOptions (plain_entries [("an", None)]) Sample.empty_store
       = (Sample.empty_store, Ok added)
       /\ options this' = options Sample.gen_mov ++ added
       /\ streams this' = streams Sample.gen_mov
       /\ url this' = url Sample.gen_mov
       /\ forall σ2,
            toCommandArray (H := Sample.externals) σ2 this'
            = try! before := rmapM (FFmpegOption.toCommandArray (H := Sample.externals) σ2)
                               (options Sample.gen_mov) in
              try! new := rmapM (FFmpegOption.toCommandArray (H := Sample.externals) σ2) added in
              try! maps := rmapM (map_tokens (H := Sample.externals) σ2)
                             (streams Sample.gen_mov) in
              Ok (concat before ++ concat new ++ concat maps ++ [url Sample.gen_mov]).
Proof.
  intros this'.
  assert (H : addOptions (plain_entries [("an", None)]) Sample.gen_mov Sample.empty_store
              = (Sample.empty_store, Ok this')) by reflexivity.
  split; [exact H|].
  apply (addOptions_renders_between (H := Sample.externals) _ _ _ _ _ H).
Defined.

Lemma null_stream_throws_witness :
  is_nullish VNull = true
  /\ rmapM (FFmpegOption.toCommandArray (H := Sample.externals) Sample.empty_store)
       (options Sample.gen_mov) = Ok [["-c:v"; "prores"]]
  /\ rmapM (map_tokens (H := Sample.externals) Sample.empty_store) (streams Sample.gen_mov)
     = Ok []
  /\ exists this',
       addStreams (VArray [VNull]) Sample.gen_mov = Ok this'
       /\ streams this' = streams Sample.gen_mov ++ [VNull]
       /\ toCommandArray (H := Sample.externals) Sample.empty_store this' = Err TypeError.
Proof.
  split; [reflexivity|]. split; [reflexivity|]. split; [reflexivity|].
  apply (null_stream_throws (H := Sample.externals) Sample.empty_store Sample.gen_mov VNull
           [["-c:v"; "prores"]] []); reflexivity.
Defined.

End OutputExtra.

(** ** Commands: the filter graph and the registration of outputs *)
Module CommandExtra.
Import JsValue FFmpegCommand LoopFacts.

(** [addFilterChain] with a filter chain: the command's graph is the graph
    it had, or a graph that was not in the store when it had none; the
    chain is appended to that graph's list; inputs, outputs and options
    stay.  Once a command has a graph it keeps it, whatever
    [addFilterChain] is handed. *)
Theorem addFilterChain_uses_one_graph (σ : store) (this : t) (c : loc) :
  (forall g0, _filterGraph this = Some g0 -> g0 ∈ dom (graphs σ)) ->
  exists this' σ' g,
    addFilterChain (VChain c) (this, σ) = ((this', σ'), Ok tt)
    /\ _filterGraph this' = Some g
    /\ match _filterGraph this with
       | Some g0 => g = g0
       | None => g ∉ dom (graphs σ)
       end
    /\ FilterGraph.chains_of σ' g = FilterGraph.chains_of σ g ++ [c]
    /\ options this' = options this
    /\ _inputs this' = _inputs this
    /\ _outputs this' = _outputs this
    /\ forall x, _filterGraph (fst (fst (addFilterChain x (this', σ')))) = Some g.
Proof.
  intros Hdom. unfold addFilterChain at 1. unfold bind, ensure_filterGraph.
  destruct (_filterGraph this) as [g0|] eqn:Hg.
  - simpl.
    exists this, {| graphs := alter (fun l => l ++ [c]) g0 (graphs σ);
                    chains := alter (FilterGraph.set_filterGraph g0) c (chains σ) |}, g0.
    split; [reflexivity|]. split; [exact Hg|]. split; [reflexivity|]. split.
    { unfold FilterGraph.chains_of. simpl. specialize (Hdom g0 eq_refl).
      apply elem_of_dom in Hdom as [l Hl]. rewrite lookup_alter_eq, Hl. reflexivity. }
    repeat split. intros x. unfold addFilterChain, bind, ensure_filterGraph.
    rewrite Hg. destruct x; simpl; exact Hg.
  - simpl.
    pose proof (is_fresh (dom (graphs σ))) as Hf.
    exists (set_filterGraph (fresh (dom (graphs σ))) this),
           {| graphs := alter (fun l => l ++ [c]) (fresh (dom (graphs σ)))
                          (<[fresh (dom (graphs σ)) := []]> (graphs σ));
              chains := alter (FilterGraph.set_filterGraph (fresh (dom (graphs σ)))) c
                          (chains σ) |},
           (fresh (dom (graphs σ))).
    split; [reflexivity|]. split; [reflexivity|]. split; [exact Hf|]. split.
    { unfold FilterGraph.chains_of. simpl.
      rewrite lookup_alter_eq, lookup_insert_eq.
      apply not_elem_of_dom in Hf. rewrite Hf. reflexivity. }
    repeat split. intros x. destruct x; reflexivity.
Qed.

Section WithExternals.
Context `{Externals}.

(** Registering an output appends its segment to what the command
    rendered before, whatever was registered earlier; when the command or
    the output does not render, neither does the new command.  Registering
    an input and an output in either order gives the same command. *)
Theorem addOutput_appends_segment (σ : store) (this : t) (output : FFmpegOutput.t) :
  toCommand_args σ (addOutput output this)
  = (try! args := toCommand_args σ this in
     try! tokens := FFmpegOutput.toCommandArray σ output in
     Ok (args ++ tokens))
  /\ forall input, addInput input (addOutput output this)
                   = addOutput output (addInput input this).
Proof.
  split; [|reflexivity].
  rewrite !CommandFacts.toCommand_args_tokens. simpl.
  rewrite OutputExtra.rmapM_append. simpl.
  destruct (rmapM (global_tokens σ) (options this)); simpl; [|reflexivity].
  destruct (rmapM (FFmpegOutput.toCommandArray σ) (_outputs this)); simpl; [|reflexivity].
  destruct (FFmpegOutput.toCommandArray σ output); simpl; [|reflexivity].
  unfold filter_tokens. simpl. rewrite concat_app. simpl.
  rewrite app_nil_r, <- !app_assoc. reflexivity.
Qed.

(** Registering an input on a command without outputs and without a filter
    graph appends the input's segment to what the command rendered. *)
Theorem addInput_appends_segment (σ : store) (this : t) (input : FFmpegInput) :
  _outputs this = [] ->
  _filterGraph this = None ->
  toCommand_args σ (addInput input this)
  = (try! args := toCommand_args σ this in Ok (args ++ segment input)).
Proof.
  intros Ho Hg. rewrite !CommandFacts.toCommand_args_tokens. unfold filter_tokens. simpl.
  rewrite Ho, Hg. simpl.
  destruct (rmapM (global_tokens σ) (options this)); simpl; [|reflexivity].
  rewrite map_app, concat_app. simpl. rewrite !app_nil_r, <- app_assoc. reflexivity.
Qed.

End WithExternals.

Lemma addFilterChain_uses_one_graph_witness :
  (forall g0, _filterGraph (constructor []) = Some g0 ->
              g0 ∈ dom (graphs FilterGraph.two_graphs_one_chain))
  /\ exists this' σ' g,
       addFilterChain (VChain 0%nat) (constructor [], FilterGraph.two_graphs_one_chain)
       = ((this', σ'), Ok tt)
       /\ _filterGraph this' = Some g
       /\ match _filterGraph (constructor []) with
          | Some g0 => g = g0
          | None => g ∉ dom (graphs FilterGraph.two_graphs_one_chain)
          end
       /\ FilterGraph.chains_of σ' g
          = FilterGraph.chains_of FilterGraph.two_graphs_one_chain g ++ [0%nat]
       /\ options this' = options (constructor [])
       /\ _inputs this' = _inputs (constructor [])
       /\ _outputs this' = _outputs (constructor [])
       /\ forall x, _filterGraph (fst (fst (addFilterChain x (this', σ')))) = Some g.
Proof.
  assert (H : forall g0, _filterGraph (constructor []) = Some g0 ->
                         g0 ∈ dom (graphs FilterGraph.two_graphs_one_chain))
    by (simpl; discriminate).
  split; [exact H|].
  apply (addFilterChain_uses_one_graph FilterGraph.two_graphs_one_chain (constructor []) 0%nat H).
Defined.

Lemma addInput_appends_segment_witness :
  _outputs (constructor [("y", VUndefined)]) = []
  /\ _filterGraph (constructor [("y", VUndefined)]) = None
  /\ toCommand_args (H := Sample.externals) Sample.empty_store
       (addInput Sample.some_file_mov (constructor [("y", VUndefined)]))
     = (try! args := toCommand_args (H := Sample.externals) Sample.empty_store
                       (constructor [("y", VUndefined)]) in
        Ok (args ++ segment Sample.some_file_mov)).
Proof.
  split; [reflexivity|]. split; [reflexivity|].
  apply (addInput_appends_segment (H := Sample.externals) Sample.empty_store
           (constructor [("y", VUndefined)]) Sample.some_file_mov); reflexivity.
Defined.

End CommandExtra.
